(** * amgui: the [Icon] wrapper and the [Window] base class of [window.py]

    [window.py] is glue code: every statement is a call into GLFW, imgui,
    OpenGL, PIL, [ctypes], [os] or the logger, or into a method a subclass
    may override.  The embedding therefore keeps the control flow of the
    source and records every such call as an [event] of a trace; what the
    outside world answers (return values, exceptions, the platform) is read
    from an environment [Env]. *)

From Stdlib Require Import List String ZArith Bool Arith Lia.
Import ListNotations.
Open Scope string_scope.
Open Scope list_scope.

(** ** Values that cross the library boundary *)

(** A [pathlib.Path] as the sequence of segments it was built from:
    [Path(a, b)] is [[a; b]] and [p / s] is [p ++ [s]]. *)
Definition Path := list string.

Definition path_div (p : Path) (segment : string) : Path := p ++ [segment].

(** Opaque handles handed out by the libraries. *)
Inductive GLFWwindow := WindowHandle (id : nat).
Inductive PILImage := ImageObject (path : string) (serial : nat).

(** The exceptions a call can raise.  [SystemExit] is not among them: it is
    produced by [exit] only and is a separate [outcome]. *)
Inductive exn :=
| AttributeError
| OtherError (tag : nat).

(** The overridable methods of [Window]. *)
Inductive method :=
| m_pre_init
| m_post_init
| m_pre_exit_loop
| m_post_exit_loop
| m_draw.

(** The GLFW hint names used by [_init_glfw]. *)
Inductive hint :=
| CONTEXT_VERSION_MAJOR
| CONTEXT_VERSION_MINOR
| OPENGL_PROFILE
| OPENGL_FORWARD_COMPAT.

(** What [print] is called with. *)
Inductive printed :=
| PrintIniPath (ini_path : Path)   (* print(ini_path, type(ini_path)) *)
| PrintWantsToSave.                (* print('wants to save!')         *)

(** One entry per call that leaves this module, with its arguments and,
    where the source uses it, the value the call returns. *)
Inductive event :=
| Invoke (m : method)                 (* self.<m>() is called                  *)
| UserCode (m : method)               (* the body of an overriding method runs *)
| ImageOpen (icon_path : string)
| GlfwInit (ok : bool)
| LoggerCritical (msg : string)
| SetCurrentProcessExplicitAppUserModelID (app_id : string)
| WindowHint (h : hint) (value : Z)
| CreateWindow (width height : Z) (title : string) (window : option GLFWwindow)
| MakeContextCurrent (window : option GLFWwindow)
| SetWindowIcon (window : option GLFWwindow) (count : nat) (images : list PILImage)
| GlfwTerminate
| ImguiCreateContext
| Makedirs (dir : Path)
| Print (what : printed)
| SetIniFileName (name : option Path)
| LoadIniSettingsFromDisk (ini_path : Path)
| SaveIniSettingsToDisk (ini_path : Path)
| NewGlfwRenderer (window : option GLFWwindow)
| GlClearColor (colour : Z * Z * Z * Z)
| GlClear
| SetWindowRefreshCallback (window : option GLFWwindow)
| WindowShouldClose (flag : bool)
| PollEvents
| ProcessInputs
| WantSaveIniSettings (flag : bool)
| NewFrame
| ImguiRender
| GetDrawData
| RendererRender
| SwapBuffers
| RendererShutdown.

(** ** The environment

    Calls are numbered by their position in the trace of the run; the
    environment answers by position, so that a repeated call may be answered
    differently each time. *)
Record Env := {
  fault : nat -> option exn;          (* the call at this position raises      *)
  glfw_init_ok : bool;                (* what glfw.init() returns              *)
  windll : bool;                      (* ctypes.windll exists (Windows only)   *)
  created_window : option GLFWwindow; (* what glfw.create_window returns       *)
  should_close_at : nat -> bool;      (* glfw.window_should_close              *)
  want_save_at : nat -> bool;         (* imgui.get_io().want_save_ini_settings *)
  refresh_at : nat -> nat;            (* refresh callbacks fired by this poll  *)
  GL_TRUE : Z
}.

(** ** Outcomes and the trace monad *)

Inductive outcome (A : Type) :=
| Returned (a : A)      (* the statement list ran to its end              *)
| Raised (e : exn)      (* an exception is propagating                    *)
| Exited (code : Z)     (* exit(code) was called                          *)
| Running.              (* the loop is still running when fuel is used up *)

Arguments Returned {A} a.
Arguments Raised {A} e.
Arguments Exited {A} code.
Arguments Running {A}.

(** A computation is run in an environment from a trace position and gives
    its outcome with the events it added. *)
Definition M (A : Type) := Env -> nat -> outcome A * list event.

Definition ret {A} (a : A) : M A := fun _ _ => (Returned a, []).

Definition bind {A B} (m : M A) (f : A -> M B) : M B := fun env n =>
  match m env n with
  | (Returned a, t) =>
      let (r, t') := f a env (n + List.length t) in (r, t ++ t')
  | (Raised e, t) => (Raised e, t)
  | (Exited c, t) => (Exited c, t)
  | (Running, t) => (Running, t)
  end.

Declare Scope py_scope.
Delimit Scope py_scope with py.
Notation "x <- m ;; k" := (bind m (fun x => k))
  (at level 61, m at next level, right associativity) : py_scope.
Notation "m ;; k" := (bind m (fun _ => k))
  (at level 61, right associativity) : py_scope.
Open Scope py_scope.

(** A call whose result the source drops. *)
Definition call (ev : event) : M unit := fun env n =>
  match fault env n with
  | Some e => (Raised e, [ev])
  | None => (Returned tt, [ev])
  end.

(** A call whose result [a] the source uses. *)
Definition call_ret {A} (a : A) (ev : event) : M A := fun env n =>
  match fault env n with
  | Some e => (Raised e, [ev])
  | None => (Returned a, [ev])
  end.

(** Entering a method of this module: recorded, cannot fail. *)
Definition enter (m : method) : M unit := fun _ _ => (Returned tt, [Invoke m]).

Definition raise {A} (e : exn) : M A := fun _ _ => (Raised e, []).

Definition exit {A} (code : Z) : M A := fun _ _ => (Exited code, []).

(** [try: body except AttributeError: pass] *)
Definition try_except_AttributeError_pass (body : M unit) : M unit := fun env n =>
  match body env n with
  | (Raised AttributeError, t) => (Returned tt, t)
  | r => r
  end.

Fixpoint repeatM (k : nat) (body : M unit) : M unit :=
  match k with
  | O => ret tt
  | S k' => body ;; repeatM k' body
  end.

(** ** class Icon *)

Record Icon := { _images : list PILImage }.

(** The [for] loop of [Icon.__init__]: [Image.open] on each path in turn,
    the result appended to [self._images]. *)
Fixpoint Icon_init_loop (images : list PILImage) (ordered_icon_paths : list string)
  : M (list PILImage) :=
  match ordered_icon_paths with
  | [] => ret images
  | icon_path :: rest =>
      img <- (fun env n => call_ret (ImageObject icon_path n) (ImageOpen icon_path) env n) ;;
      Icon_init_loop (images ++ [img]) rest
  end.

Definition Icon__init__ (ordered_icon_paths : list string) : M Icon :=
  images <- Icon_init_loop [] ordered_icon_paths ;;
  ret {| _images := images |}.

Definition glfw_images (self : Icon) : list PILImage := _images self.

(** ** class Window *)

(** A renderer object remembers the window it was built for. *)
Inductive GlfwRenderer := RendererFor (window : option GLFWwindow).

(** A concrete class deriving from [Window]: the values of the class
    attributes and, for each overridable method, whether the class replaces
    the body given in [window.py].  The body of an override is code outside
    this module: it is recorded as [UserCode] and may raise. *)
Record WindowClass := {
  _WINDOW_TITLE : string;
  _WINDOW_WIDTH : Z;
  _WINDOW_HEIGHT : Z;
  _WINDOW_ICON : option Icon;
  _WINDOW_ID_UNIQUE : string;
  _WINDOW_ID_PERSISTENT : string;
  _GROUP_UNIQUE_WINDOWS_IN_TASKBAR : bool;
  _IMGUI_USE_INI : bool;
  _IMGUI_INI_DIR : Path;
  _GLFW_CONTEXT_VERSION_MAJOR : Z;
  _GLFW_CONTEXT_VERSION_MINOR : Z;
  _GLFW_OPENGL_PROFILE : Z;
  _GL_CLEAR_COLOUR : Z * Z * Z * Z;
  overrides : method -> bool
}.

(** The attribute values written in [window.py].  [uuid4] stands for
    [str(uuid.uuid4())], [tempdir] for [tempfile.gettempdir()] and
    [OPENGL_CORE_PROFILE] for the GLFW constant, all three fixed when the
    module is imported. *)
Definition Window_defaults (uuid4 tempdir : string) (OPENGL_CORE_PROFILE : Z)
    (overridden : method -> bool) : WindowClass := {|
  _WINDOW_TITLE := "";
  _WINDOW_WIDTH := 1280;
  _WINDOW_HEIGHT := 720;
  _WINDOW_ICON := None;
  _WINDOW_ID_UNIQUE := uuid4;
  _WINDOW_ID_PERSISTENT := "default";
  _GROUP_UNIQUE_WINDOWS_IN_TASKBAR := true;
  _IMGUI_USE_INI := true;
  _IMGUI_INI_DIR := [tempdir; "amgui"];
  _GLFW_CONTEXT_VERSION_MAJOR := 3;
  _GLFW_CONTEXT_VERSION_MINOR := 3;
  _GLFW_OPENGL_PROFILE := OPENGL_CORE_PROFILE;
  _GL_CLEAR_COLOUR := (0, 0, 0, 1)%Z;
  overrides := overridden
|}.

Record Window := {
  class_of : WindowClass;
  _window : option GLFWwindow;
  _renderer : GlfwRenderer
}.

Definition window (self : Window) : option GLFWwindow := _window self.
Definition renderer (self : Window) : GlfwRenderer := _renderer self.

(** [_imgui_ini_path]: [cls._IMGUI_INI_DIR / f'{cls._WINDOW_ID_PERSISTENT}.ini'].
    The source converts the path with [str]; the segments are kept here. *)
Definition _imgui_ini_path (cls : WindowClass) : Path :=
  path_div (_IMGUI_INI_DIR cls) (_WINDOW_ID_PERSISTENT cls ++ ".ini")%string.

(** The bodies [window.py] gives to the overridable methods: [pass] for all
    but [_pre_exit_loop], which saves the imgui settings. *)
Definition default_body (cls : WindowClass) (m : method) : M unit :=
  match m with
  | m_pre_exit_loop => call (SaveIniSettingsToDisk (_imgui_ini_path cls))
  | m_pre_init | m_post_init | m_post_exit_loop | m_draw => ret tt
  end.

(** [self.<m>()]: dynamic dispatch to the override when the class has one. *)
Definition invoke (cls : WindowClass) (m : method) : M unit :=
  enter m ;;
  if overrides cls m then call (UserCode m) else default_body cls m.

Definition _pre_init (cls : WindowClass) : M unit := invoke cls m_pre_init.
Definition _post_init (cls : WindowClass) : M unit := invoke cls m_post_init.
Definition _pre_exit_loop (cls : WindowClass) : M unit := invoke cls m_pre_exit_loop.
Definition _post_exit_loop (cls : WindowClass) : M unit := invoke cls m_post_exit_loop.
Definition draw (cls : WindowClass) : M unit := invoke cls m_draw.

(** [ctypes.windll.shell32]: the attribute [windll] exists on Windows only;
    elsewhere the attribute access raises [AttributeError]. *)
Definition ctypes_windll_shell32 : M unit := fun env n =>
  (if windll env then ret tt else raise AttributeError) env n.

Definition glfw_init : M bool := fun env n =>
  call_ret (glfw_init_ok env) (GlfwInit (glfw_init_ok env)) env n.

Definition glfw_create_window (width height : Z) (title : string)
  : M (option GLFWwindow) := fun env n =>
  call_ret (created_window env)
           (CreateWindow width height title (created_window env)) env n.

Definition glfw_window_hint_GL_TRUE (h : hint) : M unit := fun env n =>
  call (WindowHint h (GL_TRUE env)) env n.

(** A window handle is false in a condition exactly when it is null. *)
Definition truthy (w : option GLFWwindow) : bool :=
  match w with Some _ => true | None => false end.

Definition _init_glfw (cls : WindowClass) : M (option GLFWwindow * GlfwRenderer) :=
  ok <- glfw_init ;;
  (if negb ok then
     call (LoggerCritical "Could not initialize OpenGL context") ;;
     exit 1
   else ret tt) ;;
  (if _GROUP_UNIQUE_WINDOWS_IN_TASKBAR cls then
     ctypes_windll_shell32 ;;
     call (SetCurrentProcessExplicitAppUserModelID (_WINDOW_ID_PERSISTENT cls))
   else
     ctypes_windll_shell32 ;;
     call (SetCurrentProcessExplicitAppUserModelID (_WINDOW_ID_UNIQUE cls))) ;;
  call (WindowHint CONTEXT_VERSION_MAJOR (_GLFW_CONTEXT_VERSION_MAJOR cls)) ;;
  call (WindowHint CONTEXT_VERSION_MINOR (_GLFW_CONTEXT_VERSION_MINOR cls)) ;;
  call (WindowHint OPENGL_PROFILE (_GLFW_OPENGL_PROFILE cls)) ;;
  glfw_window_hint_GL_TRUE OPENGL_FORWARD_COMPAT ;;
  window <- glfw_create_window (_WINDOW_WIDTH cls) (_WINDOW_HEIGHT cls) (_WINDOW_TITLE cls) ;;
  call (MakeContextCurrent window) ;;
  match _WINDOW_ICON cls with
  | Some icon =>
      let images := glfw_images icon in
      call (SetWindowIcon window (List.length images) images)
  | None => ret tt
  end ;;
  (if negb (truthy window) then
     call GlfwTerminate ;;
     call (LoggerCritical "Could not initialize Window") ;;
     exit 1
   else ret tt) ;;
  call ImguiCreateContext ;;
  call (Makedirs (_IMGUI_INI_DIR cls)) ;;
  (if _IMGUI_USE_INI cls then
     let ini_path := _imgui_ini_path cls in
     call (Print (PrintIniPath ini_path)) ;;
     call (SetIniFileName (Some ini_path)) ;;
     call (LoadIniSettingsFromDisk ini_path)
   else
     call (SetIniFileName None)) ;;
  renderer <- call_ret (RendererFor window) (NewGlfwRenderer window) ;;
  call (GlClearColor (_GL_CLEAR_COLOUR cls)) ;;
  ret (window, renderer).

Definition _draw (self : Window) : M unit :=
  call NewFrame ;;
  draw (class_of self) ;;
  call (GlClearColor (_GL_CLEAR_COLOUR (class_of self))) ;;
  call GlClear ;;
  call ImguiRender ;;
  try_except_AttributeError_pass
    (call GetDrawData ;;
     call RendererRender) ;;
  call SwapBuffers.

Definition _resize_event (self : Window) : M unit := _draw self.

(** [glfw.poll_events()]: GLFW runs the window's refresh callback, set to
    [self._resize_event] by [__init__], as often as the environment asks
    while it processes events. *)
Definition glfw_poll_events (self : Window) : M unit := fun env n =>
  (call PollEvents ;; repeatM (refresh_at env n) (_resize_event self)) env n.

Definition glfw_window_should_close (self : Window) : M bool := fun env n =>
  call_ret (should_close_at env n) (WindowShouldClose (should_close_at env n)) env n.

Definition want_save_ini_settings : M bool := fun env n =>
  call_ret (want_save_at env n) (WantSaveIniSettings (want_save_at env n)) env n.

(** The body of the [while] loop of [_glfw_loop]. *)
Definition loop_body (self : Window) : M unit :=
  glfw_poll_events self ;;
  call ProcessInputs ;;
  want <- want_save_ini_settings ;;
  (if want then call (Print PrintWantsToSave) else ret tt) ;;
  _draw self.

(** The [while] loop of [_glfw_loop].  Each unit of [fuel] pays for one test
    of the condition; with none left the loop is still [Running]. *)
Fixpoint while_not_should_close (self : Window) (fuel : nat) : M unit :=
  match fuel with
  | O => fun _ _ => (Running, [])
  | S fuel' =>
      closing <- glfw_window_should_close self ;;
      if closing then ret tt
      else
        loop_body self ;;
        while_not_should_close self fuel'
  end.

Definition _glfw_loop (self : Window) (fuel : nat) : M unit :=
  while_not_should_close self fuel ;;
  _pre_exit_loop (class_of self) ;;
  call RendererShutdown ;;
  call GlfwTerminate.

Definition Window__init__ (cls : WindowClass) (fuel : nat) : M Window :=
  _pre_init cls ;;
  wr <- _init_glfw cls ;;
  let self := {| class_of := cls; _window := fst wr; _renderer := snd wr |} in
  call (SetWindowRefreshCallback (window self)) ;;
  _post_init cls ;;
  _glfw_loop self fuel ;;
  ret self.

(** ** Observations on runs and traces *)

Definition outcome_of {A} (run : outcome A * list event) : outcome A := fst run.
Definition trace_of {A} (run : outcome A * list event) : list event := snd run.

Definition returned {A} (r : outcome A) : bool :=
  match r with Returned _ => true | _ => false end.

(** An outcome that stops a statement list, seen from the enclosing one. *)
Definition carry {A B} (r : outcome A) : outcome B :=
  match r with
  | Returned _ => Running
  | Raised e => Raised e
  | Exited c => Exited c
  | Running => Running
  end.

Definition exits {A} (r : outcome A) : bool :=
  match r with Exited _ => true | _ => false end.

(** Every event of the run satisfies [P], and the run ends in [Exited] only
    if [may_exit] allows it. *)
Definition sound (P : event -> Prop) (may_exit : bool) {A}
    (run : outcome A * list event) : Prop :=
  Forall P (snd run) /\ (exits (fst run) = true -> may_exit = true).

(** No call in the positions [n .. n + len - 1] raises. *)
Definition quiet (env : Env) (n len : nat) : Prop :=
  forall k, n <= k < n + len -> fault env k = None.

Definition image_path (img : PILImage) : string :=
  match img with ImageObject p _ => p end.

(** The images [Image.open] hands out for [paths], the first call being
    made at trace position [n]. *)
Fixpoint opened (n : nat) (paths : list string) : list PILImage :=
  match paths with
  | [] => []
  | p :: rest => ImageObject p n :: opened (S n) rest
  end.

(** [self.<m>()] is being called. *)
Definition invokes (m : method) (ev : event) : bool :=
  match ev, m with
  | Invoke m_pre_init, m_pre_init
  | Invoke m_post_init, m_post_init
  | Invoke m_pre_exit_loop, m_pre_exit_loop
  | Invoke m_post_exit_loop, m_post_exit_loop
  | Invoke m_draw, m_draw => true
  | _, _ => false
  end.

(** How often method [m] is called in a trace. *)
Definition invocations (m : method) (t : list event) : nat :=
  List.length (filter (invokes m) t).

(** What a call leaves behind outside the process. *)
Inductive artifact :=
| File (p : Path)          (* a file is written            *)
| Directory (p : Path)     (* a directory is created       *)
| StandardOutput           (* text is printed              *)
| LogStream.               (* a record goes to the logger  *)

Definition writes (ev : event) : option artifact :=
  match ev with
  | SaveIniSettingsToDisk p => Some (File p)
  | Makedirs d => Some (Directory d)
  | Print _ => Some StandardOutput
  | LoggerCritical _ => Some LogStream
  | _ => None
  end.



(** ** Sample classes and environments *)

(** A subclass that overrides nothing but keeps every default. *)
Definition plain_class : WindowClass :=
  Window_defaults "0b0e6a3c" "/tmp" 204801 (fun _ => false).

(** A Windows machine on which every call succeeds, no refresh callback
    fires and the user closes the window before the test at position
    [close_from]. *)
Definition windows_env (close_from : nat) : Env := {|
  fault := fun _ => None;
  glfw_init_ok := true;
  windll := true;
  created_window := Some (WindowHandle 1);
  should_close_at := fun k => Nat.leb close_from k;
  want_save_at := fun _ => false;
  refresh_at := fun _ => 0;
  GL_TRUE := 1
|}.

(** No call raises at all. *)
Definition faultless (env : Env) : Prop := forall k, fault env k = None.

(** A run that continues another one: the events [pre] come first. *)
Definition after {A} (pre : list event) (run : outcome A * list event)
  : outcome A * list event := (fst run, pre ++ snd run).

(** The events of [_init_glfw] up to and including the calls made on the
    new window handle, when nothing goes wrong before. *)
Definition window_creation_events (cls : WindowClass) (env : Env) : list event :=
  [ GlfwInit true;
    SetCurrentProcessExplicitAppUserModelID
      (if _GROUP_UNIQUE_WINDOWS_IN_TASKBAR cls
       then _WINDOW_ID_PERSISTENT cls else _WINDOW_ID_UNIQUE cls);
    WindowHint CONTEXT_VERSION_MAJOR (_GLFW_CONTEXT_VERSION_MAJOR cls);
    WindowHint CONTEXT_VERSION_MINOR (_GLFW_CONTEXT_VERSION_MINOR cls);
    WindowHint OPENGL_PROFILE (_GLFW_OPENGL_PROFILE cls);
    WindowHint OPENGL_FORWARD_COMPAT (GL_TRUE env);
    CreateWindow (_WINDOW_WIDTH cls) (_WINDOW_HEIGHT cls) (_WINDOW_TITLE cls)
                 (created_window env);
    MakeContextCurrent (created_window env) ]
  ++ match _WINDOW_ICON cls with
     | Some icon =>
         [ SetWindowIcon (created_window env)
                         (List.length (glfw_images icon)) (glfw_images icon) ]
     | None => []
     end.

(** The events of [_init_glfw] after the window has been checked. *)
Definition imgui_setup_events (cls : WindowClass) (env : Env) : list event :=
  [ ImguiCreateContext; Makedirs (_IMGUI_INI_DIR cls) ]
  ++ (if _IMGUI_USE_INI cls
      then [ Print (PrintIniPath (_imgui_ini_path cls));
             SetIniFileName (Some (_imgui_ini_path cls));
             LoadIniSettingsFromDisk (_imgui_ini_path cls) ]
      else [ SetIniFileName None ])
  ++ [ NewGlfwRenderer (created_window env);
       GlClearColor (_GL_CLEAR_COLOUR cls) ].

(** The same machine when [glfw.init()] returns false. *)
Definition no_glfw_env : Env := {|
  fault := fun _ => None;
  glfw_init_ok := false;
  windll := true;
  created_window := None;
  should_close_at := fun _ => true;
  want_save_at := fun _ => false;
  refresh_at := fun _ => 0;
  GL_TRUE := 1
|}.

(** The same machine when [glfw.create_window] returns a null handle. *)
Definition no_window_env : Env := {|
  fault := fun _ => None;
  glfw_init_ok := true;
  windll := true;
  created_window := None;
  should_close_at := fun _ => true;
  want_save_at := fun _ => false;
  refresh_at := fun _ => 0;
  GL_TRUE := 1
|}.

(** A machine that is not running Windows: [ctypes.windll] does not exist. *)
Definition posix_env : Env := {|
  fault := fun _ => None;
  glfw_init_ok := true;
  windll := false;
  created_window := Some (WindowHandle 1);
  should_close_at := fun _ => true;
  want_save_at := fun _ => false;
  refresh_at := fun _ => 0;
  GL_TRUE := 1
|}.

(** A subclass with a two-image window icon. *)
Definition icon_class : WindowClass := {|
  _WINDOW_TITLE := "demo";
  _WINDOW_WIDTH := 800;
  _WINDOW_HEIGHT := 600;
  _WINDOW_ICON := Some {| _images := opened 0 ["icon16.png"; "icon32.png"] |};
  _WINDOW_ID_UNIQUE := "0b0e6a3c";
  _WINDOW_ID_PERSISTENT := "demo";
  _GROUP_UNIQUE_WINDOWS_IN_TASKBAR := false;
  _IMGUI_USE_INI := false;
  _IMGUI_INI_DIR := ["/tmp"; "amgui"];
  _GLFW_CONTEXT_VERSION_MAJOR := 3;
  _GLFW_CONTEXT_VERSION_MINOR := 3;
  _GLFW_OPENGL_PROFILE := 204801;
  _GL_CLEAR_COLOUR := (0, 0, 0, 1)%Z;
  overrides := fun m => match m with m_draw => true | _ => false end
|}.

(** ** The shape of complete traces *)

(** What one call of an overridable method adds to the trace when it
    returns. *)
Definition hook_events (cls : WindowClass) (m : method) : list event :=
  Invoke m ::
  (if overrides cls m then [UserCode m]
   else match m with
        | m_pre_exit_loop => [SaveIniSettingsToDisk (_imgui_ini_path cls)]
        | _ => []
        end).

(** One complete [_draw]; [rendered] is false when [imgui.get_draw_data]
    raised the [AttributeError] that [_draw] swallows. *)
Definition frame_events (cls : WindowClass) (rendered : bool) : list event :=
  [NewFrame] ++ hook_events cls m_draw
  ++ [GlClearColor (_GL_CLEAR_COLOUR cls); GlClear; ImguiRender; GetDrawData]
  ++ (if rendered then [RendererRender] else [])
  ++ [SwapBuffers].

Definition is_frame (cls : WindowClass) (f : list event) : Prop :=
  exists rendered, f = frame_events cls rendered.

(** One complete iteration of the loop: the test finds the flag unset,
    events are polled (with the frames drawn by refresh callbacks), inputs
    are processed and a frame is drawn. *)
Definition is_iteration (cls : WindowClass) (it : list event) : Prop :=
  exists callbacks want last,
    Forall (is_frame cls) callbacks /\ is_frame cls last /\
    it = [WindowShouldClose false; PollEvents] ++ List.concat callbacks
         ++ [ProcessInputs; WantSaveIniSettings want]
         ++ (if want then [Print PrintWantsToSave] else [])
         ++ last.

(** The test of the loop condition finds the flag set. *)
Definition closes (ev : event) : bool :=
  match ev with WindowShouldClose true => true | _ => false end.

(** ** The four phases of a construction *)

Inductive stage :=
| Windowing     (* GLFW is initialized and the window created *)
| GuiContext    (* the imgui context is created and set up    *)
| Loop          (* the poll/draw loop                         *)
| Teardown.     (* renderer shutdown, GLFW termination        *)

Definition rank (s : stage) : nat :=
  match s with
  | Windowing => 1
  | GuiContext => 2
  | Loop => 3
  | Teardown => 4
  end.

(** The phase a call belongs to; calls made in several phases, hooks and
    calls outside GLFW, imgui and OpenGL drawing belong to none. *)
Definition stage_of (ev : event) : option stage :=
  match ev with
  | GlfwInit _ | WindowHint _ _ | CreateWindow _ _ _ _
  | MakeContextCurrent _ | SetWindowIcon _ _ _ => Some Windowing
  | ImguiCreateContext | SetIniFileName _ | LoadIniSettingsFromDisk _
  | NewGlfwRenderer _ => Some GuiContext
  | WindowShouldClose _ | PollEvents | ProcessInputs | WantSaveIniSettings _
  | NewFrame | Invoke m_draw | UserCode m_draw | GlClear | ImguiRender
  | GetDrawData | RendererRender | SwapBuffers => Some Loop
  | RendererShutdown | GlfwTerminate => Some Teardown
  | _ => None
  end.

(** The phases of [t] never step back, starting from rank [cur]. *)
Fixpoint in_order (cur : nat) (t : list event) : bool :=
  match t with
  | [] => true
  | ev :: t' =>
      match stage_of ev with
      | Some s => (cur <=? rank s)%nat && in_order (rank s) t'
      | None => in_order cur t'
      end
  end.

(** The rank reached at the end of [t], starting from [cur]. *)
Fixpoint last_rank (cur : nat) (t : list event) : nat :=
  match t with
  | [] => cur
  | ev :: t' =>
      match stage_of ev with
      | Some s => last_rank (rank s) t'
      | None => last_rank cur t'
      end
  end.

(** A run whose phases go from rank [lo] upwards and, when it returns, have
    not passed rank [hi]. *)
Definition phased (lo hi : nat) {A} (run : outcome A * list event) : Prop :=
  in_order lo (snd run) = true /\
  (returned (fst run) = true -> last_rank lo (snd run) <= hi).

Definition not_shutdown (ev : event) : Prop := ev <> RendererShutdown.

(** Renderer shutdown comes only after a test has found the flag set. *)
Definition shutdown_follows_close (t : list event) : Prop :=
  forall t1 t2,
    t = t1 ++ RendererShutdown :: t2 -> In (WindowShouldClose true) t1.

(** The settings are loaded, or imgui is given a settings file name. *)
Definition loads_or_names_ini (ev : event) : bool :=
  match ev with
  | LoadIniSettingsFromDisk _ | SetIniFileName (Some _) => true
  | _ => false
  end.

(** ** Exceptions *)

(** The event was made by a call that can raise; entering a method of this
    module cannot. *)
Definition is_call (ev : event) : bool :=
  match ev with Invoke _ => false | _ => true end.


(** What the code does: as above, except that an [AttributeError] raised
    by [imgui.get_draw_data] or [renderer.render] is swallowed and the frame
    goes on with [glfw.swap_buffers]. *)
Definition errors_accounted (env : Env) (n : nat) {A}
    (run : outcome A * list event) : Prop :=
  forall i ev e,
    nth_error (snd run) i = Some ev -> is_call ev = true ->
    fault env (n + i) = Some e ->
    (fst run = Raised e /\ S i = List.length (snd run))
    \/
    (e = AttributeError /\ (ev = GetDrawData \/ ev = RendererRender) /\
     nth_error (snd run) (S i) = Some SwapBuffers).


(** ** Further observations *)

(** A machine on which the second call of the run raises. *)
Definition second_call_fails_env : Env := {|
  fault := fun k => if Nat.eqb k 1 then Some (OtherError 2) else None;
  glfw_init_ok := true;
  windll := true;
  created_window := Some (WindowHandle 1);
  should_close_at := fun _ => true;
  want_save_at := fun _ => false;
  refresh_at := fun _ => 0;
  GL_TRUE := 1
|}.

(** The position of [imgui.get_draw_data] in a frame drawn from position
    [n]. *)
Definition get_draw_data_position (cls : WindowClass) (n : nat) : nat :=
  n + List.length ([NewFrame] ++ hook_events cls m_draw
                   ++ [GlClearColor (_GL_CLEAR_COLOUR cls); GlClear; ImguiRender]).

(** Every path the event carries for the imgui settings is the one the
    class computes: the file is [_imgui_ini_path], the directory
    [_IMGUI_INI_DIR]. *)
Definition uses_the_settings_path (cls : WindowClass) (ev : event) : Prop :=
  match ev with
  | LoadIniSettingsFromDisk p | SaveIniSettingsToDisk p
  | SetIniFileName (Some p) | Print (PrintIniPath p) => p = _imgui_ini_path cls
  | Makedirs d => d = _IMGUI_INI_DIR cls
  | _ => True
  end.

Definition is_teardown (ev : event) : bool :=
  match ev with RendererShutdown | GlfwTerminate => true | _ => false end.

(** A machine on which the third call of the run raises
    [AttributeError]. *)
Definition third_call_fails_env : Env := {|
  fault := fun k => if Nat.eqb k 2 then Some AttributeError else None;
  glfw_init_ok := true;
  windll := true;
  created_window := Some (WindowHandle 1);
  should_close_at := fun _ => true;
  want_save_at := fun _ => false;
  refresh_at := fun _ => 0;
  GL_TRUE := 1
|}.

Definition starts_frame (ev : event) : bool :=
  match ev with NewFrame => true | _ => false end.

Definition swaps_buffers (ev : event) : bool :=
  match ev with SwapBuffers => true | _ => false end.

Definition polls (ev : event) : bool :=
  match ev with PollEvents => true | _ => false end.

(** How many events of [t] satisfy [p]. *)
Definition count (p : event -> bool) (t : list event) : nat :=
  List.length (filter p t).

(** The calls counted in a loop trace: frames begun, calls of [draw],
    frames shown, and polls. *)
Record tally := {
  frames_begun : nat;
  draws : nat;
  frames_shown : nat;
  polled : nat
}.

Definition tally_of (t : list event) : tally := {|
  frames_begun := count starts_frame t;
  draws := invocations m_draw t;
  frames_shown := count swaps_buffers t;
  polled := count polls t
|}.

(** * Proofs *)

(** ** The trace monad *)

Lemma bind_inv {A B} (m : M A) (f : A -> M B) env n r t :
  bind m f env n = (r, t) ->
  (exists a t1 t2,
      m env n = (Returned a, t1) /\
      f a env (n + List.length t1) = (r, t2) /\ t = t1 ++ t2)
  \/ (exists r', m env n = (r', t) /\ returned r' = false /\ r = carry r').
Proof.
  unfold bind. destruct (m env n) as [[a | e | c | ] t1] eqn:Hm.
  - destruct (f a env (n + List.length t1)) as [r2 t2] eqn:Hf.
    intros [= <- <-]. left. exists a, t1, t2. auto.
  - intros [= <- <-]. right. exists (Raised e). auto.
  - intros [= <- <-]. right. exists (Exited c). auto.
  - intros [= <- <-]. right. exists Running. auto.
Qed.

Lemma bind_returned {A B} (m : M A) (f : A -> M B) env n a t1 :
  m env n = (Returned a, t1) ->
  bind m f env n =
    (fst (f a env (n + List.length t1)), t1 ++ snd (f a env (n + List.length t1))).
Proof.
  intros Hm. unfold bind. rewrite Hm.
  destruct (f a env (n + List.length t1)); reflexivity.
Qed.

Lemma bind_stopped {A B} (m : M A) (f : A -> M B) env n r t :
  m env n = (r, t) -> returned r = false ->
  bind m f env n = (carry r, t).
Proof.
  intros Hm Hr. unfold bind. rewrite Hm. destruct r; try discriminate; reflexivity.
Qed.

Lemma call_quiet ev env n :
  fault env n = None -> call ev env n = (Returned tt, [ev]).
Proof. intros H. unfold call. now rewrite H. Qed.

Lemma call_ret_quiet {A} (a : A) ev env n :
  fault env n = None -> call_ret a ev env n = (Returned a, [ev]).
Proof. intros H. unfold call_ret. now rewrite H. Qed.

Lemma quiet_head env n len : quiet env n (S len) -> fault env n = None.
Proof. intros H. apply H. lia. Qed.

Lemma quiet_tail env n len : quiet env n (S len) -> quiet env (S n) len.
Proof. intros H k Hk. apply H. lia. Qed.

Lemma quiet_split env n a b :
  quiet env n (a + b) -> quiet env n a /\ quiet env (n + a) b.
Proof. intros H. split; intros k Hk; apply H; lia. Qed.

(** ** Icon *)

Lemma opened_paths n paths : map image_path (opened n paths) = paths.
Proof.
  revert n. induction paths as [| p rest IH]; intros n; simpl; [reflexivity |].
  now rewrite IH.
Qed.

Lemma Icon_init_loop_quiet paths :
  forall images env n,
    quiet env n (List.length paths) ->
    Icon_init_loop images paths env n =
      (Returned (images ++ opened n paths), map ImageOpen paths).
Proof.
  induction paths as [| p rest IH]; intros images env n Hq; simpl.
  - unfold ret. now rewrite app_nil_r.
  - erewrite bind_returned by (apply call_ret_quiet; eapply quiet_head; eassumption).
    simpl. rewrite Nat.add_1_r.
    rewrite IH by (eapply quiet_tail; eassumption).
    simpl. now rewrite <- app_assoc.
Qed.

(** C7.  When no [Image.open] raises, constructing an [Icon] from any list
    of paths, the empty one included, opens every path exactly once and in
    the order given (the trace is [ImageOpen] mapped over the paths), and
    [glfw_images] is the list of the images so obtained: one image per
    path, in the order of the paths. *)
Theorem Icon_opens_each_path_once_in_order :
  forall (ordered_icon_paths : list string) env n,
    quiet env n (List.length ordered_icon_paths) ->
    exists icon,
      Icon__init__ ordered_icon_paths env n =
        (Returned icon, map ImageOpen ordered_icon_paths)
      /\ glfw_images icon = opened n ordered_icon_paths
      /\ map image_path (glfw_images icon) = ordered_icon_paths
      /\ List.length (glfw_images icon) = List.length ordered_icon_paths.
Proof.
  intros paths env n Hq.
  exists {| _images := opened n paths |}.
  assert (Hrun : Icon__init__ paths env n =
                 (Returned {| _images := opened n paths |}, map ImageOpen paths)).
  { unfold Icon__init__.
    erewrite bind_returned by (apply Icon_init_loop_quiet; assumption).
    simpl. now rewrite app_nil_r. }
  split; [exact Hrun |]. simpl.
  split; [reflexivity |].
  split; [apply opened_paths |].
  rewrite <- (opened_paths n paths) at 2. now rewrite length_map.
Qed.

(** ** Properties of every run

    [sound P may_exit run]: every event of the run satisfies [P], and the
    run ends in [Exited] only if [may_exit] allows it.  The rules below push
    this through the constructs of the monad; [trace_all] applies them along
    the code. *)

Section EveryRun.
Context (P : event -> Prop) (may_exit : bool).

Lemma sound_events {A} (run : outcome A * list event) :
  sound P may_exit run -> Forall P (snd run).
Proof. now intros [H _]. Qed.

Lemma sound_ret {A} (a : A) env n : sound P may_exit (ret a env n).
Proof. split; [constructor | discriminate]. Qed.

Lemma sound_raise {A} e env n : sound P may_exit (raise (A := A) e env n).
Proof. split; [constructor | discriminate]. Qed.

Lemma sound_call ev env n : P ev -> sound P may_exit (call ev env n).
Proof.
  intros H. unfold call.
  destruct (fault env n); (split; [simpl; auto | discriminate]).
Qed.

Lemma sound_call_ret {A} (a : A) ev env n :
  P ev -> sound P may_exit (call_ret a ev env n).
Proof.
  intros H. unfold call_ret.
  destruct (fault env n); (split; [simpl; auto | discriminate]).
Qed.

Lemma sound_enter m env n : P (Invoke m) -> sound P may_exit (enter m env n).
Proof. intros H. split; [simpl; auto | discriminate]. Qed.

Lemma sound_bind {A B} (m : M A) (f : A -> M B) env n :
  sound P may_exit (m env n) ->
  (forall a k, sound P may_exit (f a env k)) ->
  sound P may_exit (bind m f env n).
Proof.
  intros [Hm Hx] Hf. unfold bind.
  destruct (m env n) as [[a | e | c | ] t1]; simpl in *;
    try (split; [assumption | simpl; auto; discriminate]).
  destruct (Hf a (n + List.length t1)) as [Hf1 Hf2].
  destruct (f a env (n + List.length t1)) as [r2 t2]. simpl in *.
  split; [apply Forall_app; auto | assumption].
Qed.

Lemma sound_try body env n :
  sound P may_exit (body env n) ->
  sound P may_exit (try_except_AttributeError_pass body env n).
Proof.
  unfold try_except_AttributeError_pass. intros [Hb Hx].
  destruct (body env n) as [[a | [|tag] | c | ] t1]; simpl in *;
    (split; [assumption | simpl; auto; discriminate]).
Qed.

Lemma sound_repeat k body env :
  (forall n, sound P may_exit (body env n)) ->
  forall n, sound P may_exit (repeatM k body env n).
Proof.
  intros Hb. induction k as [| k IH]; intros n; simpl.
  - apply sound_ret.
  - apply sound_bind; auto.
Qed.
End EveryRun.

Lemma sound_exit (P : event -> Prop) {A} c env n :
  sound P true (exit (A := A) c env n).
Proof. split; [constructor | reflexivity]. Qed.

Ltac head_of t :=
  lazymatch t with
  | ?f _ => head_of f
  | _ => t
  end.

(** One step of [trace_all]; [side] discharges the goals [P ev]. *)
Ltac trace_all_step side :=
  cbv beta;
  lazymatch goal with
  | |- sound _ _ (bind _ _ _ _) => apply sound_bind; [ | intros ? ? ]
  | |- sound _ _ (ret _ _ _) => apply sound_ret
  | |- sound _ _ (raise _ _ _) => apply sound_raise
  | |- sound _ _ (exit _ _ _) => apply sound_exit
  | |- sound _ _ (call _ _ _) => apply sound_call; side
  | |- sound _ _ (call_ret _ _ _ _) => apply sound_call_ret; side
  | |- sound _ _ (enter _ _ _) => apply sound_enter; side
  | |- sound _ _ (try_except_AttributeError_pass _ _ _) => apply sound_try
  | |- sound _ _ (repeatM _ _ _ _) => apply sound_repeat; intros ?
  | |- sound _ _ ((if ?b then _ else _) _ _) => destruct b
  | |- sound _ _ ((match ?x with _ => _ end) _ _) => destruct x
  | |- sound _ _ (while_not_should_close _ _ _ _) => fail
  | |- sound _ _ ?run =>
      first [ solve [auto 1] | let h := head_of run in unfold h ]
  end.

Ltac trace_all side := repeat (trace_all_step side).

(** The loop, for a property that holds of whatever the body emits. *)
Lemma sound_while (P : event -> Prop) may_exit self :
  (forall flag, P (WindowShouldClose flag)) ->
  (forall env n, sound P may_exit (loop_body self env n)) ->
  forall fuel env n, sound P may_exit (while_not_should_close self fuel env n).
Proof.
  intros Hc Hb. induction fuel as [| fuel IH]; intros env n.
  - split; [constructor | discriminate].
  - cbn [while_not_should_close].
    trace_all ltac:(solve [auto]). apply IH.
Qed.

(** ** Lifecycle hooks *)

Lemma invocations_none m t :
  Forall (fun ev => invokes m ev = false) t -> invocations m t = 0.
Proof.
  unfold invocations. induction 1 as [| ev t Hev _ IH]; simpl; [reflexivity |].
  now rewrite Hev.
Qed.

Lemma invocations_app m t1 t2 :
  invocations m (t1 ++ t2) = invocations m t1 + invocations m t2.
Proof. unfold invocations. now rewrite filter_app, length_app. Qed.

Lemma init_never_calls_post_exit_loop cls fuel env n :
  Forall (fun ev => invokes m_post_exit_loop ev = false)
         (snd (Window__init__ cls fuel env n)).
Proof.
  apply (sound_events _ true). unfold Window__init__.
  trace_all ltac:(reflexivity).
  apply sound_while; try reflexivity.
  intros. trace_all ltac:(reflexivity).
Qed.

(** ** Artifacts *)




(** ** Running straight-line code when no call raises *)

Lemma after_after {A} p q (run : outcome A * list event) :
  after p (after q run) = after (p ++ q) run.
Proof. unfold after. simpl. now rewrite app_assoc. Qed.

Lemma after_nil {A} (run : outcome A * list event) : after [] run = run.
Proof. now destruct run. Qed.

Lemma bind_call_quiet {B} ev (f : unit -> M B) env n :
  fault env n = None ->
  bind (call ev) f env n = after [ev] (f tt env (S n)).
Proof.
  intros H. erewrite bind_returned by (apply call_quiet; exact H).
  simpl. now rewrite Nat.add_1_r.
Qed.

Lemma bind_call_ret_quiet {A B} (a : A) ev (f : A -> M B) env n :
  fault env n = None ->
  bind (call_ret a ev) f env n = after [ev] (f a env (S n)).
Proof.
  intros H. erewrite bind_returned by (apply call_ret_quiet; exact H).
  simpl. now rewrite Nat.add_1_r.
Qed.

Lemma bind_enter {B} m (f : unit -> M B) env n :
  bind (enter m) f env n = after [Invoke m] (f tt env (S n)).
Proof.
  erewrite bind_returned by reflexivity. simpl. now rewrite Nat.add_1_r.
Qed.

Lemma bind_ret {A B} (a : A) (f : A -> M B) env n :
  bind (ret a) f env n = f a env n.
Proof.
  erewrite bind_returned by reflexivity. simpl. rewrite Nat.add_0_r.
  now destruct (f a env n).
Qed.

Lemma bind_assoc {A B C} (m : M A) (f : A -> M B) (g : B -> M C) env n :
  bind (bind m f) g env n = bind m (fun a => bind (f a) g) env n.
Proof.
  unfold bind. destruct (m env n) as [[a | e | c | ] t1]; try reflexivity.
  destruct (f a env (n + List.length t1)) as [[b | e | c | ] t2]; try reflexivity.
  rewrite length_app, Nat.add_assoc.
  destruct (g b env (n + List.length t1 + List.length t2)) as [r3 t3].
  now rewrite app_assoc.
Qed.

Lemma bind_exit {A B} c (f : A -> M B) env n :
  bind (exit c) f env n = (Exited c, []).
Proof. reflexivity. Qed.

Lemma bind_raise {A B} e (f : A -> M B) env n :
  bind (raise e) f env n = (Raised e, []).
Proof. reflexivity. Qed.

Lemma call_last_quiet ev env n :
  fault env n = None -> call ev env n = after [ev] (Returned tt, []).
Proof. intros H. now rewrite call_quiet. Qed.

Lemma bind_windll_present {B} (f : unit -> M B) env n :
  windll env = true -> bind ctypes_windll_shell32 f env n = f tt env n.
Proof.
  intros H. unfold bind, ctypes_windll_shell32. rewrite H. simpl.
  rewrite Nat.add_0_r. now destruct (f tt env n).
Qed.

Lemma bind_windll_absent {B} (f : unit -> M B) env n :
  windll env = false ->
  bind ctypes_windll_shell32 f env n = (Raised AttributeError, []).
Proof. intros H. unfold bind, ctypes_windll_shell32. now rewrite H. Qed.

Lemma bind_single {A B} (m : M A) (f : A -> M B) env n a ev :
  m env n = (Returned a, [ev]) ->
  bind m f env n = after [ev] (f a env (S n)).
Proof.
  intros H. erewrite bind_returned by exact H. simpl. now rewrite Nat.add_1_r.
Qed.

Lemma glfw_init_quiet env n :
  fault env n = None ->
  glfw_init env n = (Returned (glfw_init_ok env), [GlfwInit (glfw_init_ok env)]).
Proof. intros H. unfold glfw_init. now apply call_ret_quiet. Qed.

Lemma glfw_create_window_quiet w h title env n :
  fault env n = None ->
  glfw_create_window w h title env n =
    (Returned (created_window env), [CreateWindow w h title (created_window env)]).
Proof. intros H. unfold glfw_create_window. now apply call_ret_quiet. Qed.

Lemma glfw_window_hint_GL_TRUE_quiet h env n :
  fault env n = None ->
  glfw_window_hint_GL_TRUE h env n = (Returned tt, [WindowHint h (GL_TRUE env)]).
Proof. intros H. unfold glfw_window_hint_GL_TRUE. now apply call_quiet. Qed.

Lemma glfw_window_should_close_quiet self env n :
  fault env n = None ->
  glfw_window_should_close self env n =
    (Returned (should_close_at env n), [WindowShouldClose (should_close_at env n)]).
Proof. intros H. unfold glfw_window_should_close. now apply call_ret_quiet. Qed.

Lemma want_save_ini_settings_quiet env n :
  fault env n = None ->
  want_save_ini_settings env n =
    (Returned (want_save_at env n), [WantSaveIniSettings (want_save_at env n)]).
Proof. intros H. unfold want_save_ini_settings. now apply call_ret_quiet. Qed.

(** Runs the code in the goal as far as it goes, every call being quiet
    by [Hq]. *)
Ltac run_quiet Hq :=
  repeat first
    [ progress cbv beta
    | rewrite bind_assoc
    | rewrite bind_ret
    | rewrite bind_enter
    | rewrite bind_exit
    | rewrite bind_call_quiet by apply Hq
    | rewrite bind_call_ret_quiet by apply Hq
    | erewrite bind_single by
        (first [ apply glfw_init_quiet
               | apply glfw_create_window_quiet
               | apply glfw_window_hint_GL_TRUE_quiet
               | apply glfw_window_should_close_quiet
               | apply want_save_ini_settings_quiet ]; apply Hq)
    | rewrite call_last_quiet by apply Hq
    | rewrite after_after ].

(** Brings [after pre (r, [])] to the form [(r, pre)]. *)
Ltac finish_run :=
  unfold after; cbn [fst snd];
  rewrite ?app_nil_r; repeat rewrite <- app_assoc; cbn [app];
  try reflexivity.

(** ** [_init_glfw] *)

Lemma init_glfw_without_windll cls env n :
  fault env n = None -> glfw_init_ok env = true -> windll env = false ->
  _init_glfw cls env n = (Raised AttributeError, [GlfwInit true]).
Proof.
  intros Hf Hok Hw. unfold _init_glfw.
  erewrite bind_single by (apply glfw_init_quiet; exact Hf). rewrite Hok. cbn [negb].
  rewrite bind_ret.
  destruct (_GROUP_UNIQUE_WINDOWS_IN_TASKBAR cls);
    rewrite !bind_assoc, bind_windll_absent by exact Hw; reflexivity.
Qed.

Lemma init_glfw_refused cls env n :
  quiet env n 2 -> glfw_init_ok env = false ->
  _init_glfw cls env n =
    (Exited 1, [GlfwInit false; LoggerCritical "Could not initialize OpenGL context"]).
Proof.
  intros Hq Hok. unfold _init_glfw.
  erewrite bind_single by (apply glfw_init_quiet; apply Hq; lia). rewrite Hok. cbn [negb].
  rewrite !bind_assoc.
  rewrite bind_call_quiet by (apply Hq; lia).
  rewrite bind_exit. reflexivity.
Qed.

Lemma init_glfw_to_window cls env n :
  faultless env -> glfw_init_ok env = true -> windll env = true ->
  exists k,
    _init_glfw cls env n = after (window_creation_events cls env)
      (((if negb (truthy (created_window env)) then
           call GlfwTerminate ;;
           call (LoggerCritical "Could not initialize Window") ;;
           exit 1
         else ret tt) ;;
        call ImguiCreateContext ;;
        call (Makedirs (_IMGUI_INI_DIR cls)) ;;
        (if _IMGUI_USE_INI cls then
           let ini_path := _imgui_ini_path cls in
           call (Print (PrintIniPath ini_path)) ;;
           call (SetIniFileName (Some ini_path)) ;;
           call (LoadIniSettingsFromDisk ini_path)
         else
           call (SetIniFileName None)) ;;
        renderer <- call_ret (RendererFor (created_window env))
                             (NewGlfwRenderer (created_window env)) ;;
        call (GlClearColor (_GL_CLEAR_COLOUR cls)) ;;
        ret (created_window env, renderer)) env k).
Proof.
  intros Hq Hok Hw.
  unfold _init_glfw, window_creation_events.
  erewrite bind_single by (apply glfw_init_quiet; apply Hq). rewrite Hok. cbn [negb].
  rewrite bind_ret.
  destruct (_GROUP_UNIQUE_WINDOWS_IN_TASKBAR cls);
    rewrite !bind_assoc, bind_windll_present by exact Hw;
    destruct (_WINDOW_ICON cls) as [icon |];
    run_quiet Hq; eexists; reflexivity.
Qed.

Lemma init_glfw_null_window cls env n :
  faultless env -> glfw_init_ok env = true -> windll env = true ->
  created_window env = None ->
  _init_glfw cls env n =
    (Exited 1,
     window_creation_events cls env
     ++ [GlfwTerminate; LoggerCritical "Could not initialize Window"]).
Proof.
  intros Hq Hok Hw Hnull.
  destruct (init_glfw_to_window cls env n Hq Hok Hw) as [k ->].
  rewrite Hnull. cbn [truthy negb].
  run_quiet Hq. finish_run.
Qed.

Lemma init_glfw_succeeds cls env n w :
  faultless env -> glfw_init_ok env = true -> windll env = true ->
  created_window env = Some w ->
  _init_glfw cls env n =
    (Returned (Some w, RendererFor (Some w)),
     window_creation_events cls env ++ imgui_setup_events cls env).
Proof.
  intros Hq Hok Hw Hwin.
  destruct (init_glfw_to_window cls env n Hq Hok Hw) as [k ->].
  unfold imgui_setup_events. rewrite Hwin. cbn [truthy negb].
  destruct (_IMGUI_USE_INI cls); run_quiet Hq; finish_run.
Qed.

(** Unfolds the straight-line code in the goal and splits on every answer
    of the environment, first to last. *)
Ltac split_on_faults :=
  repeat (cbn -[Nat.add];
          match goal with
          | |- context [match fault ?e ?k with _ => _ end] =>
              destruct (fault e k) eqn:?
          end).

Lemma init_glfw_exit_inv cls env n c t :
  _init_glfw cls env n = (Exited c, t) ->
  c = 1%Z /\
  ((glfw_init_ok env = false /\
    t = [GlfwInit false; LoggerCritical "Could not initialize OpenGL context"])
   \/
   (glfw_init_ok env = true /\ windll env = true /\ created_window env = None /\
    t = window_creation_events cls env
        ++ [GlfwTerminate; LoggerCritical "Could not initialize Window"])).
Proof.
  unfold _init_glfw, window_creation_events, bind, glfw_init, glfw_create_window,
    glfw_window_hint_GL_TRUE, ctypes_windll_shell32, call_ret, call, exit, ret, raise.
  destruct (_GROUP_UNIQUE_WINDOWS_IN_TASKBAR cls), (_WINDOW_ICON cls) as [icon |],
    (_IMGUI_USE_INI cls);
    cbv beta;
    destruct (glfw_init_ok env) eqn:Hok, (windll env) eqn:Hw,
      (created_window env) as [w |] eqn:Hwin;
    split_on_faults; cbn -[Nat.add]; intros [= <- <-]; auto 10.
Qed.

Lemma init_exit_inv cls fuel env n c t :
  Window__init__ cls fuel env n = (Exited c, t) ->
  exists t0 t1,
    t = t0 ++ t1 /\ _init_glfw cls env (n + List.length t0) = (Exited c, t1).
Proof.
  unfold Window__init__. intros H.
  apply bind_inv in H. destruct H as [(a & t0 & t1 & Hpre & H & ->) | (r' & Hpre & Hr & Hc)].
  - exists t0. apply bind_inv in H.
    destruct H as [(wr & t1' & t2 & Hinit & H & ->) | (r' & Hinit & Hr & Hc)].
    + exfalso.
      assert (Hs : sound (fun _ => True) false
                     ((call (SetWindowRefreshCallback
                               (window {| class_of := cls; _window := fst wr;
                                          _renderer := snd wr |})) ;;
                       _post_init cls ;;
                       _glfw_loop {| class_of := cls; _window := fst wr;
                                     _renderer := snd wr |} fuel ;;
                       ret {| class_of := cls; _window := fst wr;
                              _renderer := snd wr |})
                        env (n + List.length t0 + List.length t1'))).
      { trace_all ltac:(exact I).
        apply sound_while; try exact I; auto.
        intros. trace_all ltac:(exact I). }
      cbv zeta in H. rewrite H in Hs. destruct Hs as [_ Hs].
      specialize (Hs eq_refl). discriminate.
    + exists t1. destruct r'; try discriminate. simpl in Hc.
      injection Hc as <-. auto.
  - exfalso.
    assert (Hs : sound (fun _ => True) false (_pre_init cls env n))
      by trace_all ltac:(exact I).
    rewrite Hpre in Hs. destruct r'; try discriminate.
    destruct Hs as [_ Hs]. specialize (Hs eq_refl). discriminate.
Qed.

(** C1.  [_init_glfw] ends the process on exactly two paths, each with
    exit code 1 and a critical log record as its last call: when
    [glfw.init()] returns false, and when [glfw.create_window] returns a
    null handle.  Whenever [_init_glfw] exits it is on one of the two, and
    whenever the construction of a window exits it is [_init_glfw] that
    does: no other step of the setup calls [exit]. *)
Theorem setup_exits_on_exactly_two_paths :
  forall cls env n,
    (quiet env n 2 -> glfw_init_ok env = false ->
     _init_glfw cls env n =
       (Exited 1,
        [GlfwInit false; LoggerCritical "Could not initialize OpenGL context"]))
    /\
    (faultless env -> glfw_init_ok env = true -> windll env = true ->
     created_window env = None ->
     _init_glfw cls env n =
       (Exited 1,
        window_creation_events cls env
        ++ [GlfwTerminate; LoggerCritical "Could not initialize Window"]))
    /\
    (forall c t,
        _init_glfw cls env n = (Exited c, t) ->
        c = 1%Z /\
        ((glfw_init_ok env = false /\
          t = [GlfwInit false;
               LoggerCritical "Could not initialize OpenGL context"])
         \/
         (glfw_init_ok env = true /\ windll env = true /\
          created_window env = None /\
          t = window_creation_events cls env
              ++ [GlfwTerminate; LoggerCritical "Could not initialize Window"])))
    /\
    (forall fuel c t,
        Window__init__ cls fuel env n = (Exited c, t) ->
        exists t0 t1,
          t = t0 ++ t1 /\
          _init_glfw cls env (n + List.length t0) = (Exited c, t1)).
Proof.
  intros cls env n. split; [| split; [| split]].
  - apply init_glfw_refused.
  - apply init_glfw_null_window.
  - intros c t. apply init_glfw_exit_inv.
  - intros fuel c t. apply init_exit_inv.
Qed.

(** C8.  After a successful [glfw.init()], [_init_glfw] reaches for
    [ctypes.windll.shell32] whatever [_GROUP_UNIQUE_WINDOWS_IN_TASKBAR]
    says; where [ctypes.windll] does not exist this raises [AttributeError]
    with [glfw.init] as the only call made, so before any window is
    created. *)
Theorem init_glfw_raises_where_windll_is_missing :
  forall cls env n,
    fault env n = None -> glfw_init_ok env = true -> windll env = false ->
    _init_glfw cls env n = (Raised AttributeError, [GlfwInit true]).
Proof. intros. now apply init_glfw_without_windll. Qed.

(** C9.  When [glfw.create_window] returns a null handle and no call
    raises, [_init_glfw] still calls [glfw.make_context_current] on the
    null handle, and [glfw.set_window_icon] on it when [_WINDOW_ICON] is
    set, and only then terminates GLFW, logs and exits with code 1. *)
Theorem null_window_is_used_before_it_is_checked :
  forall cls env n,
    faultless env -> glfw_init_ok env = true -> windll env = true ->
    created_window env = None ->
    exists pre,
      _init_glfw cls env n =
        (Exited 1,
         pre
         ++ [CreateWindow (_WINDOW_WIDTH cls) (_WINDOW_HEIGHT cls)
                          (_WINDOW_TITLE cls) None;
             MakeContextCurrent None]
         ++ match _WINDOW_ICON cls with
            | Some icon =>
                [SetWindowIcon None (List.length (glfw_images icon))
                               (glfw_images icon)]
            | None => []
            end
         ++ [GlfwTerminate; LoggerCritical "Could not initialize Window"]).
Proof.
  intros cls env n Hq Hok Hw Hnull.
  rewrite (init_glfw_null_window cls env n Hq Hok Hw Hnull).
  unfold window_creation_events. rewrite Hnull.
  eexists (_ :: _ :: _ :: _ :: _ :: [_]). cbn [app]. reflexivity.
Qed.

(** ** Runs that return *)

Lemma bind_returned_inv {A B} (m : M A) (f : A -> M B) env n b t :
  bind m f env n = (Returned b, t) ->
  exists a t1 t2,
    m env n = (Returned a, t1) /\
    f a env (n + List.length t1) = (Returned b, t2) /\ t = t1 ++ t2.
Proof.
  intros H. apply bind_inv in H.
  destruct H as [H | (r' & _ & Hr & Hc)]; [exact H |].
  destruct r'; discriminate.
Qed.

Lemma call_returned_inv ev env n a t :
  call ev env n = (Returned a, t) -> t = [ev] /\ fault env n = None.
Proof.
  unfold call. destruct (fault env n); intros [= <-]; auto.
Qed.

Lemma call_ret_returned_inv {A} (a : A) ev env n b t :
  call_ret a ev env n = (Returned b, t) ->
  b = a /\ t = [ev] /\ fault env n = None.
Proof.
  unfold call_ret. destruct (fault env n); intros [= <- <-]; auto.
Qed.

(** As [split_on_faults], for code with a [try] in it. *)
Ltac split_on_faults_and_exceptions :=
  repeat (cbn -[Nat.add];
          match goal with
          | |- context [match fault ?e ?k with _ => _ end] =>
              destruct (fault e k) as [[| ?] |] eqn:?
          end).

Lemma draw_returned self env n t :
  _draw self env n = (Returned tt, t) -> is_frame (class_of self) t.
Proof.
  unfold _draw, draw, invoke, default_body, enter, try_except_AttributeError_pass,
    bind, call, ret, is_frame, frame_events, hook_events.
  destruct (overrides (class_of self) m_draw); cbv beta;
    split_on_faults_and_exceptions; cbn -[Nat.add]; intros [= <-];
    solve [ exists true; reflexivity | exists false; reflexivity ].
Qed.

Lemma repeat_draw_returned self k :
  forall env n t,
    repeatM k (_resize_event self) env n = (Returned tt, t) ->
    exists frames,
      Forall (is_frame (class_of self)) frames /\ t = List.concat frames.
Proof.
  induction k as [| k IH]; intros env n t H; simpl in H.
  - injection H as <-. exists []. auto.
  - apply bind_returned_inv in H. destruct H as ([] & t1 & t2 & H1 & H2 & ->).
    apply draw_returned in H1. apply IH in H2. destruct H2 as (frames & Hf & ->).
    exists (t1 :: frames). auto.
Qed.

Lemma loop_body_returned self env n t :
  loop_body self env n = (Returned tt, t) ->
  is_iteration (class_of self) (WindowShouldClose false :: t).
Proof.
  unfold loop_body, glfw_poll_events, want_save_ini_settings. intros H.
  apply bind_returned_inv in H. destruct H as ([] & tp & t1 & Hp & H & ->).
  apply bind_returned_inv in Hp. destruct Hp as ([] & tp1 & tp2 & Hp1 & Hp2 & ->).
  apply call_returned_inv in Hp1. destruct Hp1 as [-> _].
  apply repeat_draw_returned in Hp2. destruct Hp2 as (frames & Hframes & ->).
  apply bind_returned_inv in H. destruct H as ([] & ti & t2 & Hi & H & ->).
  apply call_returned_inv in Hi. destruct Hi as [-> _].
  apply bind_returned_inv in H. destruct H as (want & tw & t3 & Hw & H & ->).
  apply call_ret_returned_inv in Hw. destruct Hw as (-> & -> & _).
  apply bind_returned_inv in H. destruct H as ([] & ts & t4 & Hs & H & ->).
  apply draw_returned in H.
  match type of Hs with
  | (if ?w then _ else _) _ _ = _ => exists frames, w, t4; destruct w
  end.
  - apply call_returned_inv in Hs. destruct Hs as [-> _].
    split; [assumption | split; [assumption |]].
    cbn [app]. now rewrite <- ?app_assoc.
  - injection Hs as <-.
    split; [assumption | split; [assumption |]].
    cbn [app]. now rewrite <- ?app_assoc.
Qed.

Lemma while_returned self fuel :
  forall env n t,
    while_not_should_close self fuel env n = (Returned tt, t) ->
    exists iterations,
      Forall (is_iteration (class_of self)) iterations /\
      List.length iterations < fuel /\
      t = List.concat iterations ++ [WindowShouldClose true].
Proof.
  induction fuel as [| fuel IH]; intros env n t H; [discriminate |].
  cbn [while_not_should_close] in H. unfold glfw_window_should_close in H.
  apply bind_returned_inv in H. destruct H as (closing & tc & t1 & Hc & H & ->).
  apply call_ret_returned_inv in Hc. destruct Hc as (-> & -> & _).
  destruct (should_close_at env n).
  - injection H as <-. exists []. simpl. split; [auto | split; [lia | reflexivity]].
  - apply bind_returned_inv in H. destruct H as ([] & tb & tw & Hb & Hw & ->).
    apply loop_body_returned in Hb. apply IH in Hw.
    destruct Hw as (iterations & Hits & Hlen & ->).
    exists ((WindowShouldClose false :: tb) :: iterations).
    split; [auto | split].
    + simpl. lia.
    + cbn [List.concat app]. now rewrite <- app_assoc.
Qed.

(** ** Runs in which no call raises *)

Lemma bind_after {A B} (m : M A) (f : A -> M B) env n a t1 :
  m env n = (Returned a, t1) ->
  bind m f env n = after t1 (f a env (n + List.length t1)).
Proof. intros H. now rewrite (bind_returned _ _ _ _ _ _ H). Qed.

Lemma try_render_quiet env n :
  faultless env ->
  try_except_AttributeError_pass (call GetDrawData ;; call RendererRender) env n =
    (Returned tt, [GetDrawData; RendererRender]).
Proof.
  intros Hq. unfold try_except_AttributeError_pass.
  rewrite bind_call_quiet, call_quiet by apply Hq. reflexivity.
Qed.

Lemma draw_quiet self env n :
  faultless env ->
  _draw self env n = (Returned tt, frame_events (class_of self) true).
Proof.
  intros Hq.
  unfold _draw, draw, invoke, default_body, frame_events, hook_events.
  destruct (overrides (class_of self) m_draw); run_quiet Hq;
    erewrite bind_after by (apply try_render_quiet; exact Hq);
    run_quiet Hq; finish_run.
Qed.

Lemma repeat_draw_quiet self env k :
  faultless env ->
  forall n, exists t, repeatM k (_resize_event self) env n = (Returned tt, t).
Proof.
  intros Hq. induction k as [| k IH]; intros n; simpl.
  - now exists [].
  - unfold _resize_event at 1.
    erewrite bind_after by (apply draw_quiet; exact Hq).
    destruct (IH (n + List.length (frame_events (class_of self) true))) as [t ->].
    eexists. reflexivity.
Qed.

Lemma poll_events_quiet self env n :
  faultless env -> exists t, glfw_poll_events self env n = (Returned tt, t).
Proof.
  intros Hq. unfold glfw_poll_events.
  rewrite bind_call_quiet by apply Hq.
  destruct (repeat_draw_quiet self env (refresh_at env n) Hq (S n)) as [tp ->].
  eexists. reflexivity.
Qed.

Lemma loop_body_quiet self env n :
  faultless env -> exists t, loop_body self env n = (Returned tt, t).
Proof.
  intros Hq. unfold loop_body.
  destruct (poll_events_quiet self env n Hq) as [tp Hp].
  erewrite bind_after by exact Hp.
  run_quiet Hq.
  match goal with
  | |- context [if ?w then _ else _] => destruct w
  end; run_quiet Hq; rewrite draw_quiet by exact Hq; eexists; finish_run.
Qed.

(** One turn of the loop when the flag is unset and nothing raises. *)
Lemma while_turn_quiet self env n :
  faultless env -> should_close_at env n = false ->
  exists it,
    is_iteration (class_of self) it /\
    forall fuel,
      while_not_should_close self (S fuel) env n =
        after it (while_not_should_close self fuel env (n + List.length it)).
Proof.
  intros Hq Hopen.
  destruct (loop_body_quiet self env (S n) Hq) as [tb Hb].
  exists (WindowShouldClose false :: tb). split.
  - eapply loop_body_returned. exact Hb.
  - intros fuel. cbn [while_not_should_close].
    erewrite bind_single by (apply glfw_window_should_close_quiet; apply Hq).
    rewrite Hopen.
    erewrite bind_after by exact Hb.
    rewrite after_after. cbn [app List.length].
    now rewrite Nat.add_succ_r.
Qed.

Lemma while_stop_quiet self env n fuel :
  faultless env -> should_close_at env n = true ->
  while_not_should_close self (S fuel) env n =
    (Returned tt, [WindowShouldClose true]).
Proof.
  intros Hq Hset. cbn [while_not_should_close].
  erewrite bind_single by (apply glfw_window_should_close_quiet; apply Hq).
  now rewrite Hset.
Qed.

Lemma iteration_not_empty cls it : is_iteration cls it -> 0 < List.length it.
Proof. intros (cb & want & l & _ & _ & ->). simpl. lia. Qed.

(** While the flag stays unset and nothing raises the loop keeps turning:
    [fuel] tests pay for [fuel] complete iterations. *)
Lemma while_keeps_running self env :
  faultless env -> (forall k, should_close_at env k = false) ->
  forall fuel n,
    exists iterations,
      Forall (is_iteration (class_of self)) iterations /\
      List.length iterations = fuel /\
      while_not_should_close self fuel env n = (Running, List.concat iterations).
Proof.
  intros Hq Hopen. induction fuel as [| fuel IH]; intros n.
  - exists []. auto.
  - destruct (while_turn_quiet self env n Hq (Hopen n)) as (it & Hit & Hturn).
    destruct (IH (n + List.length it)) as (its & Hits & Hlen & Hrun).
    exists (it :: its). split; [auto | split; [simpl; lia |]].
    rewrite Hturn, Hrun. reflexivity.
Qed.

(** Once the flag is set from position [K] on and nothing raises, the loop
    returns, given more than [K - n] tests. *)
Lemma while_returns self env K :
  faultless env -> (forall k, K <= k -> should_close_at env k = true) ->
  forall fuel n, K - n < fuel ->
    exists t, while_not_should_close self fuel env n = (Returned tt, t).
Proof.
  intros Hq Hset. induction fuel as [| fuel IH]; intros n Hfuel; [lia |].
  destruct (should_close_at env n) eqn:Hn.
  - rewrite while_stop_quiet by assumption. eexists. reflexivity.
  - assert (n < K).
    { destruct (Nat.lt_ge_cases n K) as [Hlt | Hge]; [exact Hlt |].
      rewrite (Hset n Hge) in Hn. discriminate. }
    destruct (while_turn_quiet self env n Hq Hn) as (it & Hit & Hturn).
    apply iteration_not_empty in Hit.
    destruct (IH (n + List.length it)) as [t Ht]; [lia |].
    rewrite Hturn, Ht. eexists. reflexivity.
Qed.

(** ** Where an event can sit in a trace *)

Lemma split_in_second {A} (x : A) ta :
  ~ In x ta ->
  forall t1 t2 tb,
    t1 ++ x :: t2 = ta ++ tb ->
    exists t1', t1 = ta ++ t1' /\ tb = t1' ++ x :: t2.
Proof.
  induction ta as [| y ta IH]; intros Hnot t1 t2 tb H.
  - exists t1. auto.
  - destruct t1 as [| z t1]; simpl in H.
    + injection H as -> _. exfalso. apply Hnot. now left.
    + injection H as -> H. apply IH in H.
      * destruct H as (t1' & -> & ->). exists t1'. auto.
      * intros Hin. apply Hnot. now right.
Qed.

Lemma not_closing_not_in t :
  Forall (fun ev => closes ev = false) t -> ~ In (WindowShouldClose true) t.
Proof.
  rewrite Forall_forall. intros H Hin. apply H in Hin. discriminate.
Qed.

Lemma call_ret_trace {A} (a : A) ev env n : snd (call_ret a ev env n) = [ev].
Proof. unfold call_ret. now destruct (fault env n). Qed.

Lemma loop_body_never_closes self env n :
  sound (fun ev => closes ev = false) false (loop_body self env n).
Proof. trace_all ltac:(reflexivity). Qed.

(** A test that finds the flag set is the last event of the loop. *)
Lemma while_closes_last self fuel :
  forall env n r t,
    while_not_should_close self fuel env n = (r, t) ->
    forall t1 t2, t = t1 ++ WindowShouldClose true :: t2 -> t2 = [].
Proof.
  induction fuel as [| fuel IH]; intros env n r t H t1 t2 Ht.
  - injection H as _ <-. now destruct t1.
  - cbn [while_not_should_close] in H. unfold glfw_window_should_close in H.
    pose proof (call_ret_trace (should_close_at env n)
                  (WindowShouldClose (should_close_at env n)) env n) as Htest.
    apply bind_inv in H.
    destruct H as [(closing & tc & t3 & Hc & H & ->) | (r' & Hc & _ & _)].
    + rewrite Hc in Htest. simpl in Htest. subst tc.
      apply call_ret_returned_inv in Hc. destruct Hc as (-> & _ & _).
      destruct (should_close_at env n).
      * injection H as _ <-. simpl in Ht.
        destruct t1 as [| ? [| ? ?]]; simpl in Ht; try discriminate.
        now injection Ht as <-.
      * apply bind_inv in H.
        destruct H as [([] & tb & tw & Hbody & Hw & ->) | (r' & Hbody & _ & _)];
          match type of Hbody with
          | loop_body _ _ ?k = _ =>
              pose proof (loop_body_never_closes self env k) as [Hb _]
          end;
          apply not_closing_not_in in Hb.
        -- rewrite Hbody in Hb. simpl in Hb.
           change ([WindowShouldClose false] ++ tb ++ tw)
             with ((WindowShouldClose false :: tb) ++ tw) in Ht.
           symmetry in Ht. apply split_in_second in Ht.
           ++ destruct Ht as (t1' & _ & Htw). eapply IH; eassumption.
           ++ intros [Hin | Hin]; [discriminate | auto].
        -- rewrite Hbody in Hb. simpl in Hb. simpl in Ht. exfalso.
           assert (Hin : In (WindowShouldClose true) (WindowShouldClose false :: t3))
             by (rewrite Ht; apply in_elt).
           destruct Hin as [Hin | Hin]; [discriminate | auto].
    + rewrite Hc in Htest. simpl in Htest. rewrite Htest in Ht.
      destruct t1 as [| ? [| ? ?]]; simpl in Ht; try discriminate.
      now injection Ht as _ <-.
Qed.

Lemma while_never_exits self fuel env n :
  exits (fst (while_not_should_close self fuel env n)) = false.
Proof.
  assert (Hs : sound (fun _ => True) false
                 (while_not_should_close self fuel env n)).
  { apply sound_while; [exact (fun _ => I) |].
    intros. trace_all ltac:(exact I). }
  destruct Hs as [_ Hs].
  destruct (exits (fst (while_not_should_close self fuel env n))); [| reflexivity].
  now specialize (Hs eq_refl).
Qed.

(** C6.  The loop of [_glfw_loop] turns while, and only while, the test
    [glfw.window_should_close] finds the flag unset.  When the loop
    returns, its trace is a sequence of complete iterations (test unset,
    poll events, process inputs, draw) followed by the one test that found
    the flag set; a test that finds the flag set is always the last event of
    the loop; the loop never exits the process; while the flag stays unset
    and no call raises it is still running after any number of tests; and
    once the flag is set and no call raises it returns. *)
Theorem loop_turns_until_the_window_should_close :
  forall self,
    (forall fuel env n t,
        while_not_should_close self fuel env n = (Returned tt, t) ->
        exists iterations,
          Forall (is_iteration (class_of self)) iterations /\
          List.length iterations < fuel /\
          t = List.concat iterations ++ [WindowShouldClose true])
    /\
    (forall fuel env n r t,
        while_not_should_close self fuel env n = (r, t) ->
        forall t1 t2, t = t1 ++ WindowShouldClose true :: t2 -> t2 = [])
    /\
    (forall fuel env n,
        exits (outcome_of (while_not_should_close self fuel env n)) = false)
    /\
    (forall env,
        faultless env -> (forall k, should_close_at env k = false) ->
        forall fuel n,
        exists iterations,
          Forall (is_iteration (class_of self)) iterations /\
          List.length iterations = fuel /\
          while_not_should_close self fuel env n =
            (Running, List.concat iterations))
    /\
    (forall env K,
        faultless env -> (forall k, K <= k -> should_close_at env k = true) ->
        forall fuel n, K - n < fuel ->
        exists t, while_not_should_close self fuel env n = (Returned tt, t)).
Proof.
  intros self. split; [| split; [| split; [| split]]].
  - intros fuel env n t. apply while_returned.
  - intros fuel env n r t. apply while_closes_last.
  - intros fuel env n. apply while_never_exits.
  - intros env. apply while_keeps_running.
  - intros env K. apply while_returns.
Qed.

(** ** Phases *)

Lemma in_order_weaken t :
  forall c c', c <= c' -> in_order c' t = true -> in_order c t = true.
Proof.
  induction t as [| ev t IH]; intros c c' Hc H; simpl in *; [reflexivity |].
  destruct (stage_of ev) as [s |].
  - apply andb_true_iff in H. destruct H as [H1 H2].
    apply andb_true_iff. split; [| exact H2].
    apply Nat.leb_le. apply Nat.leb_le in H1. lia.
  - eapply IH; eassumption.
Qed.

Lemma last_rank_mono t :
  forall c c', c <= c' -> last_rank c t <= last_rank c' t.
Proof.
  induction t as [| ev t IH]; intros c c' Hc; simpl; [exact Hc |].
  destruct (stage_of ev); auto.
Qed.

Lemma in_order_app t1 :
  forall c t2,
    in_order c (t1 ++ t2) = in_order c t1 && in_order (last_rank c t1) t2.
Proof.
  induction t1 as [| ev t1 IH]; intros c t2; simpl; [reflexivity |].
  destruct (stage_of ev).
  - rewrite IH. now rewrite andb_assoc.
  - apply IH.
Qed.

Lemma last_rank_app t1 :
  forall c t2, last_rank c (t1 ++ t2) = last_rank (last_rank c t1) t2.
Proof.
  induction t1 as [| ev t1 IH]; intros c t2; simpl; [reflexivity |].
  destruct (stage_of ev); apply IH.
Qed.

Lemma phased_bind lo mid hi {A B} (m : M A) (f : A -> M B) env n :
  phased lo mid (m env n) ->
  (forall a k, phased mid hi (f a env k)) ->
  phased lo hi (bind m f env n).
Proof.
  unfold phased, bind. intros [Hm1 Hm2] Hf.
  destruct (m env n) as [[a | e | c | ] t1]; simpl in *;
    try (split; [assumption | discriminate]).
  specialize (Hm2 eq_refl).
  destruct (Hf a (n + List.length t1)) as [Hf1 Hf2].
  destruct (f a env (n + List.length t1)) as [r2 t2]. simpl in *.
  split.
  - rewrite in_order_app, Hm1. simpl.
    eapply in_order_weaken; eassumption.
  - intros Hr. rewrite last_rank_app.
    etransitivity; [apply last_rank_mono; exact Hm2 | auto].
Qed.

Lemma one_stage s t :
  Forall (fun ev => stage_of ev = None \/ stage_of ev = Some s) t ->
  forall c, c <= rank s -> in_order c t = true /\ last_rank c t <= rank s.
Proof.
  induction 1 as [| ev t [Hev | Hev] _ IH]; intros c Hc; simpl.
  - auto.
  - rewrite Hev. auto.
  - rewrite Hev. destruct (IH (rank s) (le_n _)) as [H1 H2].
    split; [| exact H2].
    apply andb_true_iff. split; [now apply Nat.leb_le | exact H1].
Qed.

Lemma phased_of_sound s lo hi may_exit {A} (run : outcome A * list event) :
  sound (fun ev => stage_of ev = None \/ stage_of ev = Some s) may_exit run ->
  lo <= rank s -> rank s <= hi ->
  phased lo hi run.
Proof.
  intros [Hs _] Hlo Hhi. destruct (one_stage s _ Hs lo Hlo) as [H1 H2].
  split; [exact H1 | intros _; lia].
Qed.

(** The phases of a trace in order: of two staged events the earlier one
    belongs to the earlier phase, or to the same. *)
Lemma in_order_from t :
  forall c, in_order c t = true ->
  forall i ev s, nth_error t i = Some ev -> stage_of ev = Some s -> c <= rank s.
Proof.
  induction t as [| x t IH]; intros c H i ev s Hi Hs.
  - now destruct i.
  - simpl in H. destruct i as [| i]; simpl in Hi.
    + injection Hi as ->. rewrite Hs in H.
      apply andb_true_iff in H. destruct H as [H _]. now apply Nat.leb_le.
    + destruct (stage_of x) as [sx |].
      * apply andb_true_iff in H. destruct H as [H1 H2].
        apply Nat.leb_le in H1.
        specialize (IH _ H2 _ _ _ Hi Hs). lia.
      * eapply IH; eassumption.
Qed.

Lemma in_order_sorted t :
  forall c, in_order c t = true ->
  forall i j ei ej si sj,
    i < j -> nth_error t i = Some ei -> nth_error t j = Some ej ->
    stage_of ei = Some si -> stage_of ej = Some sj -> rank si <= rank sj.
Proof.
  induction t as [| x t IH]; intros c H i j ei ej si sj Hij Hi Hj Hsi Hsj.
  - now destruct i.
  - simpl in H. destruct j as [| j]; [lia |]. simpl in Hj.
    destruct i as [| i]; simpl in Hi.
    + injection Hi as ->. rewrite Hsi in H.
      apply andb_true_iff in H. destruct H as [_ H].
      eapply in_order_from; eassumption.
    + destruct (stage_of x) as [sx |].
      * apply andb_true_iff in H. destruct H as [_ H].
        eapply (IH _ H i j); eauto. lia.
      * eapply (IH _ H i j); eauto. lia.
Qed.

Ltac staged := simpl; auto.

Lemma init_glfw_phased cls env n : phased 1 2 (_init_glfw cls env n).
Proof.
  unfold phased, _init_glfw, bind, glfw_init, glfw_create_window,
    glfw_window_hint_GL_TRUE, ctypes_windll_shell32, call_ret, call, exit, ret, raise.
  destruct (_GROUP_UNIQUE_WINDOWS_IN_TASKBAR cls), (_WINDOW_ICON cls) as [icon |],
    (_IMGUI_USE_INI cls);
    cbv beta;
    destruct (glfw_init_ok env), (windll env), (created_window env) as [w |];
    split_on_faults; cbn -[Nat.add];
    (split; [reflexivity | intros; try discriminate; auto]).
Qed.

Lemma while_phased self fuel env n :
  phased 2 3 (while_not_should_close self fuel env n).
Proof.
  apply (phased_of_sound Loop _ _ false); [| simpl; lia | simpl; lia].
  apply sound_while; [intros; staged |].
  intros. trace_all staged.
Qed.

Lemma glfw_loop_phased self fuel env n : phased 2 4 (_glfw_loop self fuel env n).
Proof.
  unfold _glfw_loop.
  apply (phased_bind 2 3 4); [apply while_phased | intros [] k].
  apply (phased_bind 3 3 4); [| intros [] k1].
  { apply (phased_of_sound Loop _ _ false); [| simpl; lia | simpl; lia].
    trace_all staged. }
  apply (phased_bind 3 4 4); [| intros [] k2].
  { apply (phased_of_sound Teardown _ _ false); [| simpl; lia | simpl; lia].
    trace_all staged. }
  apply (phased_of_sound Teardown _ _ false); [| simpl; lia | simpl; lia].
  trace_all staged.
Qed.

Lemma init_phased cls fuel env n : phased 1 4 (Window__init__ cls fuel env n).
Proof.
  unfold Window__init__.
  apply (phased_bind 1 1 4); [| intros [] k].
  { apply (phased_of_sound Windowing _ _ false); [| simpl; lia | simpl; lia].
    trace_all staged. }
  apply (phased_bind 1 2 4); [apply init_glfw_phased | intros wr k1]. cbv zeta.
  apply (phased_bind 2 2 4); [| intros [] k2].
  { apply (phased_of_sound GuiContext _ _ false); [| simpl; lia | simpl; lia].
    trace_all staged. }
  apply (phased_bind 2 2 4); [| intros [] k3].
  { apply (phased_of_sound GuiContext _ _ false); [| simpl; lia | simpl; lia].
    trace_all staged. }
  apply (phased_bind 2 4 4); [apply glfw_loop_phased | intros [] k4].
  apply (phased_of_sound Teardown _ _ false); [| simpl; lia | simpl; lia].
  trace_all staged.
Qed.

(** ** Complete constructions *)

Lemma init_glfw_returned_inv cls env n wr t :
  _init_glfw cls env n = (Returned wr, t) ->
  exists w,
    glfw_init_ok env = true /\ windll env = true /\
    created_window env = Some w /\
    wr = (Some w, RendererFor (Some w)) /\
    t = window_creation_events cls env ++ imgui_setup_events cls env.
Proof.
  unfold _init_glfw, window_creation_events, imgui_setup_events, bind, glfw_init,
    glfw_create_window, glfw_window_hint_GL_TRUE, ctypes_windll_shell32,
    call_ret, call, exit, ret, raise.
  destruct (_GROUP_UNIQUE_WINDOWS_IN_TASKBAR cls), (_WINDOW_ICON cls) as [icon |],
    (_IMGUI_USE_INI cls);
    cbv beta;
    destruct (glfw_init_ok env) eqn:Hok, (windll env) eqn:Hw,
      (created_window env) as [w |] eqn:Hwin;
    split_on_faults; cbn -[Nat.add]; intros [= <- <-];
    exists w; auto 10.
Qed.

Lemma invoke_returned cls m env n t :
  invoke cls m env n = (Returned tt, t) -> t = hook_events cls m.
Proof.
  unfold invoke, hook_events, default_body, enter, bind, call, ret.
  destruct (overrides cls m), m; cbv beta;
    split_on_faults; cbn -[Nat.add]; now intros [= <-].
Qed.

Lemma glfw_loop_returned self fuel env n t :
  _glfw_loop self fuel env n = (Returned tt, t) ->
  exists iterations,
    Forall (is_iteration (class_of self)) iterations /\
    List.length iterations < fuel /\
    t = List.concat iterations ++ [WindowShouldClose true]
        ++ hook_events (class_of self) m_pre_exit_loop
        ++ [RendererShutdown; GlfwTerminate].
Proof.
  unfold _glfw_loop, _pre_exit_loop. intros H.
  apply bind_returned_inv in H. destruct H as ([] & tw & t1 & Hw & H & ->).
  apply bind_returned_inv in H. destruct H as ([] & th & t2 & Hh & H & ->).
  apply bind_returned_inv in H. destruct H as ([] & ts & t3 & Hs & H & ->).
  apply while_returned in Hw. destruct Hw as (its & Hits & Hlen & ->).
  apply invoke_returned in Hh. subst th.
  apply call_returned_inv in Hs. destruct Hs as [-> _].
  apply call_returned_inv in H. destruct H as [-> _].
  exists its. split; [assumption | split; [assumption |]].
  now rewrite <- !app_assoc.
Qed.

Lemma init_returned cls fuel env n self t :
  Window__init__ cls fuel env n = (Returned self, t) ->
  exists w iterations,
    glfw_init_ok env = true /\ windll env = true /\
    created_window env = Some w /\
    self = {| class_of := cls; _window := Some w;
              _renderer := RendererFor (Some w) |} /\
    Forall (is_iteration cls) iterations /\
    List.length iterations < fuel /\
    t = hook_events cls m_pre_init
        ++ window_creation_events cls env ++ imgui_setup_events cls env
        ++ [SetWindowRefreshCallback (Some w)]
        ++ hook_events cls m_post_init
        ++ List.concat iterations ++ [WindowShouldClose true]
        ++ hook_events cls m_pre_exit_loop
        ++ [RendererShutdown; GlfwTerminate].
Proof.
  unfold Window__init__, _pre_init, _post_init. intros H.
  apply bind_returned_inv in H. destruct H as ([] & tp & t1 & Hp & H & ->).
  apply bind_returned_inv in H. destruct H as (wr & ti & t2 & Hi & H & ->).
  cbv zeta in H.
  apply bind_returned_inv in H. destruct H as ([] & tc & t3 & Hc & H & ->).
  apply bind_returned_inv in H. destruct H as ([] & tq & t4 & Hq & H & ->).
  apply bind_returned_inv in H. destruct H as ([] & tl & t5 & Hl & H & ->).
  injection H as <- <-.
  apply invoke_returned in Hp. subst tp.
  apply init_glfw_returned_inv in Hi.
  destruct Hi as (w & Hok & Hw & Hwin & -> & ->).
  apply call_returned_inv in Hc. destruct Hc as [-> _].
  apply invoke_returned in Hq. subst tq.
  apply glfw_loop_returned in Hl. destruct Hl as (its & Hits & Hlen & ->).
  exists w, its. cbn [fst snd window _window class_of] in *.
  repeat (split; [assumption || reflexivity |]).
  rewrite app_nil_r. now rewrite <- !app_assoc.
Qed.

(** ** Teardown follows the end of the loop *)

Lemma shutdown_absent t :
  ~ In RendererShutdown t -> shutdown_follows_close t.
Proof.
  intros Hnot t1 t2 ->. exfalso. apply Hnot. apply in_elt.
Qed.

Lemma shutdown_later ta tb :
  ~ In RendererShutdown ta -> shutdown_follows_close tb ->
  shutdown_follows_close (ta ++ tb).
Proof.
  intros Hnot Hb t1 t2 H. symmetry in H.
  apply split_in_second in H; [| exact Hnot].
  destruct H as (t1' & -> & Htb). apply in_or_app. right. eapply Hb. exact Htb.
Qed.

Lemma shutdown_after_close ta tb :
  ~ In RendererShutdown ta -> In (WindowShouldClose true) ta ->
  shutdown_follows_close (ta ++ tb).
Proof.
  intros Hnot Hin t1 t2 H. symmetry in H.
  apply split_in_second in H; [| exact Hnot].
  destruct H as (t1' & -> & _). apply in_or_app. now left.
Qed.

Lemma not_shutdown_not_in t : Forall not_shutdown t -> ~ In RendererShutdown t.
Proof.
  rewrite Forall_forall. intros H Hin. now apply (H _ Hin).
Qed.

Lemma shutdown_bind {A B} (m : M A) (f : A -> M B) env n :
  sound not_shutdown true (m env n) ->
  (forall a k, shutdown_follows_close (snd (f a env k))) ->
  shutdown_follows_close (snd (bind m f env n)).
Proof.
  intros [Hm _] Hf. apply not_shutdown_not_in in Hm. unfold bind.
  destruct (m env n) as [[a | e | c | ] t1]; simpl in *;
    try (now apply shutdown_absent).
  specialize (Hf a (n + List.length t1)).
  destruct (f a env (n + List.length t1)) as [r2 t2]. simpl in *.
  now apply shutdown_later.
Qed.

Lemma glfw_loop_shutdown self fuel env n :
  shutdown_follows_close (snd (_glfw_loop self fuel env n)).
Proof.
  unfold _glfw_loop.
  assert (Hw : sound not_shutdown false (while_not_should_close self fuel env n)).
  { apply sound_while; [intros; discriminate |].
    intros. trace_all ltac:(discriminate). }
  destruct Hw as [Hw _]. apply not_shutdown_not_in in Hw.
  destruct (while_not_should_close self fuel env n) as [r tw] eqn:Hrun.
  simpl in Hw.
  destruct r as [[] | e | c | ].
  - erewrite bind_returned by exact Hrun. cbn [snd].
    apply shutdown_after_close; [exact Hw |].
    apply while_returned in Hrun. destruct Hrun as (its & _ & _ & ->).
    apply in_or_app. right. now left.
  - erewrite bind_stopped by (exact Hrun || reflexivity).
    now apply shutdown_absent.
  - erewrite bind_stopped by (exact Hrun || reflexivity).
    now apply shutdown_absent.
  - erewrite bind_stopped by (exact Hrun || reflexivity).
    now apply shutdown_absent.
Qed.

Lemma bind_ret_trace {A B} (m : M A) (b : B) env n :
  snd (bind m (fun _ => ret b) env n) = snd (m env n).
Proof.
  unfold bind, ret. destruct (m env n) as [[a | e | c | ] t]; simpl; auto.
  apply app_nil_r.
Qed.

Lemma init_shutdown cls fuel env n :
  shutdown_follows_close (snd (Window__init__ cls fuel env n)).
Proof.
  unfold Window__init__.
  apply shutdown_bind; [trace_all ltac:(discriminate) | intros [] k].
  apply shutdown_bind; [trace_all ltac:(discriminate) | intros wr k1]. cbv zeta.
  apply shutdown_bind; [trace_all ltac:(discriminate) | intros [] k2].
  apply shutdown_bind; [trace_all ltac:(discriminate) | intros [] k3].
  rewrite bind_ret_trace. apply glfw_loop_shutdown.
Qed.

(** C2.  In the trace of every construction the four phases come in
    order: of any two calls that belong to a phase, the earlier call
    belongs to the earlier phase (windowing before GUI context before loop
    before teardown) or to the same one; renderer shutdown is preceded by a
    test of the loop that found the close flag set; and a construction that
    returns has gone through all four: the window creation calls, the imgui
    set-up, the iterations of the loop up to the closing test, the
    pre-exit hook, then renderer shutdown followed by GLFW termination. *)
Theorem construction_goes_through_the_phases_in_order :
  forall cls fuel env n,
    (forall i j ei ej si sj,
        i < j ->
        nth_error (trace_of (Window__init__ cls fuel env n)) i = Some ei ->
        nth_error (trace_of (Window__init__ cls fuel env n)) j = Some ej ->
        stage_of ei = Some si -> stage_of ej = Some sj ->
        rank si <= rank sj)
    /\
    shutdown_follows_close (trace_of (Window__init__ cls fuel env n))
    /\
    (forall self,
        outcome_of (Window__init__ cls fuel env n) = Returned self ->
        exists w iterations,
          created_window env = Some w /\
          Forall (is_iteration cls) iterations /\
          trace_of (Window__init__ cls fuel env n) =
            hook_events cls m_pre_init
            ++ window_creation_events cls env ++ imgui_setup_events cls env
            ++ [SetWindowRefreshCallback (Some w)]
            ++ hook_events cls m_post_init
            ++ List.concat iterations ++ [WindowShouldClose true]
            ++ hook_events cls m_pre_exit_loop
            ++ [RendererShutdown; GlfwTerminate]).
Proof.
  intros cls fuel env n. split; [| split].
  - destruct (init_phased cls fuel env n) as [H _].
    intros i j ei ej si sj. eapply in_order_sorted. exact H.
  - apply init_shutdown.
  - intros self Hret. unfold outcome_of, trace_of in *.
    destruct (Window__init__ cls fuel env n) as [r t] eqn:Hrun.
    simpl in Hret. subst r.
    apply init_returned in Hrun.
    destruct Hrun as (w & its & _ & _ & Hwin & _ & Hits & _ & ->).
    exists w, its. auto.
Qed.

(** ** Settings *)

Lemma pre_exit_loop_default cls env n :
  overrides cls m_pre_exit_loop = false -> fault env (S n) = None ->
  _pre_exit_loop cls env n =
    (Returned tt,
     [Invoke m_pre_exit_loop; SaveIniSettingsToDisk (_imgui_ini_path cls)]).
Proof.
  intros Hdef Hq. unfold _pre_exit_loop, invoke. rewrite Hdef, bind_enter.
  cbn [default_body]. now rewrite call_quiet.
Qed.

Lemma init_without_ini cls fuel env n :
  _IMGUI_USE_INI cls = false ->
  Forall (fun ev => loads_or_names_ini ev = false)
         (snd (Window__init__ cls fuel env n)).
Proof.
  intros Huse. apply (sound_events _ true).
  unfold Window__init__, _init_glfw. revert Huse.
  destruct (_IMGUI_USE_INI cls); [discriminate | intros _].
  trace_all ltac:(reflexivity).
  apply sound_while; [reflexivity |].
  intros. trace_all ltac:(reflexivity).
Qed.

(** C10.  For a class with [_IMGUI_USE_INI] false, no run of the
    construction loads the settings or gives imgui a settings file name, and
    a construction that returns has cleared the file name
    ([SetIniFileName None]); yet [_pre_exit_loop], when not overridden,
    saves the settings to [_imgui_ini_path] whatever [_IMGUI_USE_INI] says,
    so that the construction that returns has written the file between the
    closing test of the loop and the renderer shutdown. *)
Theorem settings_are_saved_even_when_ini_is_off :
  forall cls,
    _IMGUI_USE_INI cls = false ->
    overrides cls m_pre_exit_loop = false ->
    (forall fuel env n,
        Forall (fun ev => loads_or_names_ini ev = false)
               (trace_of (Window__init__ cls fuel env n)))
    /\
    (forall env n,
        fault env (S n) = None ->
        _pre_exit_loop cls env n =
          (Returned tt,
           [Invoke m_pre_exit_loop; SaveIniSettingsToDisk (_imgui_ini_path cls)]))
    /\
    (forall fuel env n self t,
        Window__init__ cls fuel env n = (Returned self, t) ->
        In (SetIniFileName None) t /\
        exists before,
          t = before
              ++ [WindowShouldClose true; Invoke m_pre_exit_loop;
                  SaveIniSettingsToDisk (_imgui_ini_path cls);
                  RendererShutdown; GlfwTerminate]).
Proof.
  intros cls Huse Hdef. split; [| split].
  - intros fuel env n. now apply init_without_ini.
  - intros env n. now apply pre_exit_loop_default.
  - intros fuel env n self t Hrun.
    apply init_returned in Hrun.
    destruct Hrun as (w & its & _ & _ & _ & _ & _ & _ & ->).
    split.
    + unfold imgui_setup_events. rewrite Huse.
      apply in_or_app. right. apply in_or_app. right.
      apply in_or_app. left. simpl. auto.
    + exists (hook_events cls m_pre_init
              ++ window_creation_events cls env ++ imgui_setup_events cls env
              ++ [SetWindowRefreshCallback (Some w)]
              ++ hook_events cls m_post_init
              ++ List.concat its).
      replace (hook_events cls m_pre_exit_loop)
        with [Invoke m_pre_exit_loop;
              SaveIniSettingsToDisk (_imgui_ini_path cls)]
        by (unfold hook_events; now rewrite Hdef).
      rewrite <- !app_assoc. reflexivity.
Qed.

(** ** Exceptions *)

Section Accounted.
Context (env : Env).

Lemma accounted_ret {A} (a : A) n : errors_accounted env n (ret a env n).
Proof. intros [| i] ev e H; discriminate H. Qed.

Lemma accounted_raise {A} e0 n :
  errors_accounted env n (raise (A := A) e0 env n).
Proof. intros [| i] ev e H; discriminate H. Qed.

Lemma accounted_exit {A} c n : errors_accounted env n (exit (A := A) c env n).
Proof. intros [| i] ev e H; discriminate H. Qed.

Lemma accounted_call ev0 n : errors_accounted env n (call ev0 env n).
Proof.
  intros i ev e Hi _ Hf. left. unfold call in *.
  destruct i as [| i].
  - rewrite Nat.add_0_r in Hf. rewrite Hf. auto.
  - destruct (fault env n); simpl in Hi; now destruct i.
Qed.

Lemma accounted_call_ret {A} (a : A) ev0 n :
  errors_accounted env n (call_ret a ev0 env n).
Proof.
  intros i ev e Hi _ Hf. left. unfold call_ret in *.
  destruct i as [| i].
  - rewrite Nat.add_0_r in Hf. rewrite Hf. auto.
  - destruct (fault env n); simpl in Hi; now destruct i.
Qed.

Lemma accounted_enter m n : errors_accounted env n (enter m env n).
Proof.
  intros i ev e Hi Hc _. destruct i as [| i]; simpl in Hi.
  - injection Hi as <-. discriminate Hc.
  - now destruct i.
Qed.

Lemma accounted_bind {A B} (m : M A) (f : A -> M B) n :
  errors_accounted env n (m env n) ->
  (forall a k, errors_accounted env k (f a env k)) ->
  errors_accounted env n (bind m f env n).
Proof.
  unfold errors_accounted, bind. intros Hm Hf i ev e.
  destruct (m env n) as [[a | e1 | c | ] t1] eqn:Hrun; cbn [fst snd] in *;
    try (intros Hi Hc Hfault;
         destruct (Hm i ev e Hi Hc Hfault) as [[H1 H2] | H]; [| now right];
         left; split; [congruence | exact H2]).
  specialize (Hf a (n + List.length t1)).
  destruct (f a env (n + List.length t1)) as [r2 t2]. cbn [fst snd] in *.
  intros Hi Hc Hfault.
  destruct (Nat.lt_ge_cases i (List.length t1)) as [Hlt | Hge].
  - rewrite nth_error_app1 in Hi by exact Hlt.
    destruct (Hm i ev e Hi Hc Hfault) as [[H1 _] | (He & Hev & Hnext)];
      [discriminate H1 |].
    right. split; [exact He | split; [exact Hev |]].
    rewrite nth_error_app1; [exact Hnext |].
    apply nth_error_Some. rewrite Hnext. discriminate.
  - rewrite nth_error_app2 in Hi by exact Hge.
    replace (n + i) with (n + List.length t1 + (i - List.length t1)) in Hfault
      by lia.
    destruct (Hf _ ev e Hi Hc Hfault) as [[H1 H2] | (He & Hev & Hnext)].
    + left. split; [exact H1 |]. rewrite length_app. lia.
    + right. split; [exact He | split; [exact Hev |]].
      rewrite nth_error_app2 by lia.
      replace (S i - List.length t1) with (S (i - List.length t1)) by lia.
      exact Hnext.
Qed.

Lemma accounted_repeat k body :
  (forall n, errors_accounted env n (body env n)) ->
  forall n, errors_accounted env n (repeatM k body env n).
Proof.
  intros Hb. induction k as [| k IH]; intros n; simpl.
  - apply accounted_ret.
  - apply accounted_bind; auto.
Qed.

End Accounted.

(** A trace given event by event. *)
Lemma accounted_nil env n {A} (r : outcome A) : errors_accounted env n (r, []).
Proof. intros [| i] ev e H; discriminate H. Qed.

Lemma accounted_cons env n {A} (r : outcome A) ev0 t :
  (is_call ev0 = true -> forall e, fault env n = Some e ->
     (r = Raised e /\ t = []) \/
     (e = AttributeError /\ (ev0 = GetDrawData \/ ev0 = RendererRender) /\
      nth_error t 0 = Some SwapBuffers)) ->
  errors_accounted env (S n) (r, t) ->
  errors_accounted env n (r, ev0 :: t).
Proof.
  unfold errors_accounted. cbn [fst snd]. intros H0 Ht [| i] ev e Hi Hc Hf.
  - injection Hi as <-. rewrite Nat.add_0_r in Hf.
    destruct (H0 Hc e Hf) as [[-> ->] | H]; [left; auto | right; exact H].
  - cbn [nth_error] in Hi. rewrite Nat.add_succ_r in Hf.
    destruct (Ht i ev e Hi Hc Hf) as [[H1 H2] | H].
    + left. split; [exact H1 | simpl; lia].
    + right. exact H.
Qed.

(** The [try] statement of [_draw] with the call that follows it. *)
Lemma accounted_try_render env n :
  errors_accounted env n
    ((try_except_AttributeError_pass (call GetDrawData ;; call RendererRender) ;;
      call SwapBuffers) env n).
Proof.
  unfold try_except_AttributeError_pass, bind, call.
  destruct (fault env n) as [[| tag0] |] eqn:H0; cbn -[Nat.add].
  - (* imgui.get_draw_data raises AttributeError: swallowed *)
    replace (n + 1) with (S n) by lia.
    destruct (fault env (S n)) as [e1 |] eqn:H1;
      (apply accounted_cons;
       [ intros _ e He; right; split; [congruence | auto]
       | apply accounted_cons; [| apply accounted_nil];
         intros _ e He; left; split; [congruence | reflexivity] ]).
  - (* imgui.get_draw_data raises something else: propagates *)
    apply accounted_cons; [| apply accounted_nil].
    intros _ e He. left. split; [congruence | reflexivity].
  - replace (n + 1) with (S n) by lia.
    destruct (fault env (S n)) as [[| tag1] |] eqn:H1; cbn -[Nat.add].
    + (* renderer.render raises AttributeError: swallowed *)
      replace (n + 2) with (S (S n)) by lia.
      destruct (fault env (S (S n))) as [e2 |] eqn:H2;
        (apply accounted_cons; [intros _ e He; congruence |];
         apply accounted_cons;
         [ intros _ e He; right; split; [congruence | auto]
         | apply accounted_cons; [| apply accounted_nil];
           intros _ e He; left; split; [congruence | reflexivity] ]).
    + (* renderer.render raises something else: propagates *)
      apply accounted_cons; [intros _ e He; congruence |].
      apply accounted_cons; [| apply accounted_nil].
      intros _ e He. left. split; [congruence | reflexivity].
    + replace (n + 2) with (S (S n)) by lia.
      destruct (fault env (S (S n))) as [e2 |] eqn:H2;
        (apply accounted_cons; [intros _ e He; congruence |];
         apply accounted_cons; [intros _ e He; congruence |];
         apply accounted_cons; [| apply accounted_nil];
         intros _ e He; left; split; [congruence | reflexivity]).
Qed.

(** Applies the rules of [Accounted] along the code. *)
Ltac account_step :=
  cbv beta;
  lazymatch goal with
  | |- errors_accounted _ _
         (bind (try_except_AttributeError_pass _) _ _ _) =>
      apply accounted_try_render
  | |- errors_accounted _ _ (bind _ _ _ _) =>
      apply accounted_bind; [ | intros ? ? ]
  | |- errors_accounted _ _ (ret _ _ _) => apply accounted_ret
  | |- errors_accounted _ _ (raise _ _ _) => apply accounted_raise
  | |- errors_accounted _ _ (exit _ _ _) => apply accounted_exit
  | |- errors_accounted _ _ (call _ _ _) => apply accounted_call
  | |- errors_accounted _ _ (call_ret _ _ _ _) => apply accounted_call_ret
  | |- errors_accounted _ _ (enter _ _ _) => apply accounted_enter
  | |- errors_accounted _ _ (repeatM _ _ _ _) =>
      apply accounted_repeat; intros ?
  | |- errors_accounted _ _ ((if ?b then _ else _) _ _) => destruct b
  | |- errors_accounted _ _ ((match ?x with _ => _ end) _ _) => destruct x
  | |- errors_accounted _ _ (while_not_should_close _ _ _ _) => fail
  | |- errors_accounted _ _ ?run =>
      first [ solve [auto 1] | let h := head_of run in unfold h ]
  end.

Ltac account_all := repeat account_step.

Lemma draw_accounted self env n : errors_accounted env n (_draw self env n).
Proof. account_all. Qed.




(** ** The hooks of a complete construction *)

Lemma invocations_hook cls m m' :
  invocations m (hook_events cls m') = if invokes m (Invoke m') then 1 else 0.
Proof.
  unfold invocations, hook_events.
  destruct (overrides cls m'), m, m'; reflexivity.
Qed.

Lemma invocations_frame cls m rendered :
  m <> m_draw -> invocations m (frame_events cls rendered) = 0.
Proof.
  intros Hm. unfold frame_events. rewrite !invocations_app, invocations_hook.
  destruct rendered, m; try reflexivity; now destruct Hm.
Qed.

Lemma invocations_frames cls m frames :
  m <> m_draw -> Forall (is_frame cls) frames ->
  invocations m (List.concat frames) = 0.
Proof.
  intros Hm. induction 1 as [| f frames [rendered ->] _ IH]; [reflexivity |].
  cbn [List.concat]. rewrite invocations_app, IH.
  now rewrite invocations_frame.
Qed.

Lemma invocations_iterations cls m iterations :
  m <> m_draw -> Forall (is_iteration cls) iterations ->
  invocations m (List.concat iterations) = 0.
Proof.
  intros Hm.
  induction 1 as [| it its (cb & want & l & Hcb & [r ->] & ->) _ IH];
    [reflexivity |].
  cbn [List.concat]. rewrite !invocations_app, IH.
  rewrite (invocations_frames cls m cb Hm Hcb), invocations_frame by exact Hm.
  destruct want; reflexivity.
Qed.

Lemma invocations_window_creation cls env m :
  invocations m (window_creation_events cls env) = 0.
Proof.
  unfold window_creation_events. now destruct (_WINDOW_ICON cls).
Qed.

Lemma invocations_imgui_setup cls env m :
  invocations m (imgui_setup_events cls env) = 0.
Proof.
  unfold imgui_setup_events. now destruct (_IMGUI_USE_INI cls).
Qed.

(** In a construction that returns, [_pre_init], [_post_init] and
    [_pre_exit_loop] are each called once and [_post_exit_loop] is not
    called. *)
Lemma hooks_of_a_complete_construction cls fuel env n self t :
  Window__init__ cls fuel env n = (Returned self, t) ->
  invocations m_pre_init t = 1 /\
  invocations m_post_init t = 1 /\
  invocations m_pre_exit_loop t = 1 /\
  invocations m_post_exit_loop t = 0.
Proof.
  intros Hrun. apply init_returned in Hrun.
  destruct Hrun as (w & its & _ & _ & _ & _ & Hits & _ & ->).
  repeat split;
    rewrite !invocations_app, !invocations_hook,
      invocations_window_creation, invocations_imgui_setup,
      (invocations_iterations cls _ its) by (discriminate || exact Hits);
    reflexivity.
Qed.

(** On the default class, closed at the first test, the construction
    returns and has called each hook but [_post_exit_loop] once. *)
Example hooks_of_the_plain_class :
  returned (outcome_of (Window__init__ plain_class 1 (windows_env 0) 0)) = true /\
  map (fun m => invocations m
                  (trace_of (Window__init__ plain_class 1 (windows_env 0) 0)))
      [m_pre_init; m_post_init; m_pre_exit_loop; m_post_exit_loop]
  = [1; 1; 1; 0].
Proof. split; vm_compute; reflexivity. Qed.

(** C3.  The hook [_post_exit_loop], documented as called after GLFW/imgui
    cleans up, is never called: in the trace of every construction of every
    subclass, in every environment and whatever the outcome, the number of
    calls of [_post_exit_loop] is zero.  The other three hooks are called
    exactly once in every construction that returns. *)
Theorem post_exit_loop_is_never_invoked :
  forall cls fuel env n,
    invocations m_post_exit_loop (trace_of (Window__init__ cls fuel env n)) = 0
    /\
    (forall self,
        outcome_of (Window__init__ cls fuel env n) = Returned self ->
        invocations m_pre_init (trace_of (Window__init__ cls fuel env n)) = 1 /\
        invocations m_post_init (trace_of (Window__init__ cls fuel env n)) = 1 /\
        invocations m_pre_exit_loop
          (trace_of (Window__init__ cls fuel env n)) = 1).
Proof.
  intros cls fuel env n. split.
  - apply invocations_none, init_never_calls_post_exit_loop.
  - intros self Hret. unfold outcome_of, trace_of in *.
    destruct (Window__init__ cls fuel env n) as [r t] eqn:Hrun.
    simpl in Hret. subst r.
    apply hooks_of_a_complete_construction in Hrun. tauto.
Qed.

(** ** The theorems at concrete inputs *)

Lemma windows_env_faultless close_from : faultless (windows_env close_from).
Proof. intros k. reflexivity. Qed.

Lemma no_window_env_faultless : faultless no_window_env.
Proof. intros k. reflexivity. Qed.

(** C7 on two icon files. *)
Lemma Icon_of_two_files :
  quiet (windows_env 0) 0 2 /\
  exists icon,
    Icon__init__ ["icon16.png"; "icon32.png"] (windows_env 0) 0 =
      (Returned icon, [ImageOpen "icon16.png"; ImageOpen "icon32.png"])
    /\ glfw_images icon = opened 0 ["icon16.png"; "icon32.png"]
    /\ map image_path (glfw_images icon) = ["icon16.png"; "icon32.png"]
    /\ List.length (glfw_images icon) = 2.
Proof.
  split.
  - intros k _. reflexivity.
  - apply (Icon_opens_each_path_once_in_order
             ["icon16.png"; "icon32.png"] (windows_env 0) 0).
    intros k _. reflexivity.
Defined.

(** C1 on the two machines where the setup fails. *)
Lemma setup_exits_on_the_failing_machines :
  _init_glfw plain_class no_glfw_env 0 =
    (Exited 1,
     [GlfwInit false; LoggerCritical "Could not initialize OpenGL context"])
  /\
  _init_glfw plain_class no_window_env 0 =
    (Exited 1,
     window_creation_events plain_class no_window_env
     ++ [GlfwTerminate; LoggerCritical "Could not initialize Window"]).
Proof.
  split.
  - apply (proj1 (setup_exits_on_exactly_two_paths plain_class no_glfw_env 0)).
    + intros k _. reflexivity.
    + reflexivity.
  - apply (proj1 (proj2
             (setup_exits_on_exactly_two_paths plain_class no_window_env 0))).
    + exact no_window_env_faultless.
    + reflexivity.
    + reflexivity.
    + reflexivity.
Defined.

(** C8 on a machine without [ctypes.windll]. *)
Lemma init_glfw_on_posix :
  fault posix_env 0 = None /\ glfw_init_ok posix_env = true /\
  windll posix_env = false /\
  _init_glfw plain_class posix_env 0 = (Raised AttributeError, [GlfwInit true]).
Proof.
  split; [reflexivity | split; [reflexivity | split; [reflexivity |]]].
  apply (init_glfw_raises_where_windll_is_missing plain_class posix_env 0);
    reflexivity.
Defined.

(** C9 on a class with an icon, where no window can be created. *)
Lemma null_window_with_an_icon :
  exists pre,
    _init_glfw icon_class no_window_env 0 =
      (Exited 1,
       pre
       ++ [CreateWindow 800 600 "demo" None; MakeContextCurrent None]
       ++ [SetWindowIcon None 2 (opened 0 ["icon16.png"; "icon32.png"])]
       ++ [GlfwTerminate; LoggerCritical "Could not initialize Window"]).
Proof.
  apply (null_window_is_used_before_it_is_checked icon_class no_window_env 0).
  - exact no_window_env_faultless.
  - reflexivity.
  - reflexivity.
  - reflexivity.
Defined.

(** C6 on a window closed at position 20, the loop starting at 18. *)
Lemma loop_returns_once_closed :
  exists t,
    while_not_should_close
      {| class_of := plain_class; _window := Some (WindowHandle 1);
         _renderer := RendererFor (Some (WindowHandle 1)) |}
      3 (windows_env 20) 18 = (Returned tt, t).
Proof.
  apply (proj2 (proj2 (proj2 (proj2
           (loop_turns_until_the_window_should_close
              {| class_of := plain_class; _window := Some (WindowHandle 1);
                 _renderer := RendererFor (Some (WindowHandle 1)) |}))))
           (windows_env 20) 20).
  - apply windows_env_faultless.
  - intros k Hk. apply Nat.leb_le. exact Hk.
  - simpl. lia.
Defined.

(** C2 on the default class, the window closed after one iteration. *)
Lemma phases_of_a_complete_construction :
  exists w iterations,
    created_window (windows_env 30) = Some w /\
    Forall (is_iteration plain_class) iterations /\
    trace_of (Window__init__ plain_class 2 (windows_env 30) 0) =
      hook_events plain_class m_pre_init
      ++ window_creation_events plain_class (windows_env 30)
      ++ imgui_setup_events plain_class (windows_env 30)
      ++ [SetWindowRefreshCallback (Some w)]
      ++ hook_events plain_class m_post_init
      ++ List.concat iterations ++ [WindowShouldClose true]
      ++ hook_events plain_class m_pre_exit_loop
      ++ [RendererShutdown; GlfwTerminate].
Proof.
  eapply (proj2 (proj2
            (construction_goes_through_the_phases_in_order
               plain_class 2 (windows_env 30) 0))).
  vm_compute. reflexivity.
Defined.

(** C10 on a class with [_IMGUI_USE_INI] false. *)
Lemma settings_saved_by_the_icon_class :
  In (SetIniFileName None)
     (trace_of (Window__init__ icon_class 1 (windows_env 0) 0))
  /\
  exists before,
    trace_of (Window__init__ icon_class 1 (windows_env 0) 0) =
      before
      ++ [WindowShouldClose true; Invoke m_pre_exit_loop;
          SaveIniSettingsToDisk ["/tmp"; "amgui"; "demo.ini"];
          RendererShutdown; GlfwTerminate].
Proof.
  eapply (proj2 (proj2
            (settings_are_saved_even_when_ini_is_off icon_class eq_refl eq_refl))
            1 (windows_env 0) 0).
  vm_compute. reflexivity.
Defined.

(** * Further properties of the code *)

Lemma call_ret_raises {A} (a : A) ev env n e :
  fault env n = Some e -> call_ret a ev env n = (Raised e, [ev]).
Proof. intros H. unfold call_ret. now rewrite H. Qed.

Lemma call_raises ev env n e :
  fault env n = Some e -> call ev env n = (Raised e, [ev]).
Proof. intros H. unfold call. now rewrite H. Qed.

Lemma Icon_init_loop_fails paths :
  forall images env n k e,
    k < List.length paths -> quiet env n k -> fault env (n + k) = Some e ->
    Icon_init_loop images paths env n =
      (Raised e, map ImageOpen (firstn (S k) paths)).
Proof.
  induction paths as [| p rest IH]; intros images env n k e Hk Hq Hf;
    [simpl in Hk; lia |].
  cbn [Icon_init_loop]. destruct k as [| k].
  - rewrite Nat.add_0_r in Hf.
    erewrite bind_stopped by (apply call_ret_raises; exact Hf) || reflexivity.
    reflexivity.
  - erewrite bind_single by (apply call_ret_quiet; eapply quiet_head; exact Hq).
    rewrite (IH _ env (S n) k e).
    + reflexivity.
    + simpl in Hk. lia.
    + eapply quiet_tail. exact Hq.
    + rewrite <- Hf. f_equal. lia.
Qed.

(** X1.  When [Image.open] raises on one of the paths, [Icon.__init__]
    ends there with that exception: no icon is built, the paths before the
    failing one have been opened in order, and the paths after it are never
    opened. *)
Theorem Icon_stops_at_the_first_path_that_fails :
  forall (ordered_icon_paths : list string) env n k e,
    k < List.length ordered_icon_paths ->
    quiet env n k -> fault env (n + k) = Some e ->
    Icon__init__ ordered_icon_paths env n =
      (Raised e, map ImageOpen (firstn (S k) ordered_icon_paths)).
Proof.
  intros paths env n k e Hk Hq Hf. unfold Icon__init__.
  erewrite bind_stopped
    by (apply Icon_init_loop_fails; eassumption) || reflexivity.
  reflexivity.
Qed.

Lemma Icon_of_three_files_fails_at_the_second :
  Icon__init__ ["a.png"; "b.png"; "c.png"] second_call_fails_env 0 =
    (Raised (OtherError 2), [ImageOpen "a.png"; ImageOpen "b.png"]).
Proof.
  apply (Icon_stops_at_the_first_path_that_fails
           ["a.png"; "b.png"; "c.png"] second_call_fails_env 0 1 (OtherError 2)).
  - simpl. lia.
  - intros k Hk. assert (k = 0) as -> by lia. reflexivity.
  - reflexivity.
Defined.

(** X2.  [_init_glfw] returns exactly on the good path: if it returns,
    then [glfw.init()] answered true, [ctypes.windll] exists and
    [glfw.create_window] gave a non-null handle, the value returned is that
    window paired with a renderer built for it, and the calls made are the
    window creation calls followed by the imgui set-up calls; and when
    these three conditions hold and no call raises, it does return so. *)
Theorem init_glfw_returns_the_window_and_its_renderer :
  forall cls env n,
    (forall wr t,
        _init_glfw cls env n = (Returned wr, t) ->
        exists w,
          glfw_init_ok env = true /\ windll env = true /\
          created_window env = Some w /\
          wr = (Some w, RendererFor (Some w)) /\
          t = window_creation_events cls env ++ imgui_setup_events cls env)
    /\
    (forall w,
        faultless env -> glfw_init_ok env = true -> windll env = true ->
        created_window env = Some w ->
        _init_glfw cls env n =
          (Returned (Some w, RendererFor (Some w)),
           window_creation_events cls env ++ imgui_setup_events cls env)).
Proof.
  intros cls env n. split.
  - intros wr t. apply init_glfw_returned_inv.
  - intros w. apply init_glfw_succeeds.
Qed.

Lemma init_glfw_of_the_icon_class :
  _init_glfw icon_class (windows_env 0) 0 =
    (Returned (Some (WindowHandle 1), RendererFor (Some (WindowHandle 1))),
     window_creation_events icon_class (windows_env 0)
     ++ imgui_setup_events icon_class (windows_env 0)).
Proof.
  apply (proj2 (init_glfw_returns_the_window_and_its_renderer
                  icon_class (windows_env 0) 0)).
  - apply windows_env_faultless.
  - reflexivity.
  - reflexivity.
  - reflexivity.
Defined.

Lemma draw_outcome self env n :
  outcome_of (_draw self env n) <> Running /\
  exits (outcome_of (_draw self env n)) = false.
Proof.
  unfold outcome_of, _draw, draw, invoke, default_body, enter,
    try_except_AttributeError_pass, bind, call, ret.
  destruct (overrides (class_of self) m_draw); cbv beta;
    split_on_faults_and_exceptions; cbn -[Nat.add]; split;
    (discriminate || reflexivity).
Qed.

Lemma draw_unrendered self env n t :
  _draw self env n = (Returned tt, t) ->
  t = frame_events (class_of self) false ->
  fault env (get_draw_data_position (class_of self) n) = Some AttributeError.
Proof.
  unfold _draw, draw, invoke, default_body, enter, try_except_AttributeError_pass,
    bind, call, ret, get_draw_data_position, frame_events, hook_events.
  destruct (overrides (class_of self) m_draw); cbv beta;
    split_on_faults_and_exceptions; cbn -[Nat.add];
    intros [= <-]; intros [=];
    cbn [List.length app] in *;
    rewrite <- ?Nat.add_assoc in *; cbn [Nat.add] in *; assumption.
Qed.

(** X3.  A call of [_draw] that returns has drawn one complete frame:
    [imgui.new_frame], the subclass's [draw], clear colour, clear,
    [imgui.render], [imgui.get_draw_data], [renderer.render] and
    [glfw.swap_buffers], in this order; [renderer.render] is missing from
    it only when [imgui.get_draw_data] raised [AttributeError].  When no
    call raises [_draw] returns with the full frame, and it never exits the
    process. *)
Theorem draw_draws_one_complete_frame :
  forall self env n,
    (forall t, _draw self env n = (Returned tt, t) ->
               is_frame (class_of self) t)
    /\
    (_draw self env n = (Returned tt, frame_events (class_of self) false) ->
     fault env (get_draw_data_position (class_of self) n) = Some AttributeError)
    /\
    (faultless env ->
     _draw self env n = (Returned tt, frame_events (class_of self) true))
    /\
    exits (outcome_of (_draw self env n)) = false.
Proof.
  intros self env n. split; [| split; [| split]].
  - intros t. apply draw_returned.
  - intros H. eapply draw_unrendered; [exact H | reflexivity].
  - intros Hq. now apply draw_quiet.
  - apply draw_outcome.
Qed.

Lemma frame_of_the_plain_class :
  _draw {| class_of := plain_class; _window := Some (WindowHandle 1);
           _renderer := RendererFor (Some (WindowHandle 1)) |}
        (windows_env 0) 22 =
    (Returned tt, frame_events plain_class true).
Proof.
  apply (proj1 (proj2 (proj2
           (draw_draws_one_complete_frame
              {| class_of := plain_class; _window := Some (WindowHandle 1);
                 _renderer := RendererFor (Some (WindowHandle 1)) |}
              (windows_env 0) 22)))).
  apply windows_env_faultless.
Defined.

(** X4.  An exception raised by the subclass's [draw], [AttributeError]
    included, is not swallowed: [_draw] ends with it right there, before
    anything is cleared, rendered or swapped. *)
Theorem exception_in_draw_aborts_the_frame :
  forall self env n e,
    overrides (class_of self) m_draw = true ->
    fault env n = None -> fault env (n + 2) = Some e ->
    _draw self env n = (Raised e, [NewFrame; Invoke m_draw; UserCode m_draw]).
Proof.
  intros self env n e Hov H0 H2. unfold _draw, draw, invoke. rewrite Hov.
  rewrite bind_call_quiet by exact H0.
  rewrite !bind_assoc, bind_enter.
  replace (S (S n)) with (n + 2) by lia.
  erewrite bind_stopped by (apply call_raises; exact H2) || reflexivity.
  reflexivity.
Qed.

Lemma draw_of_the_icon_class_fails :
  _draw {| class_of := icon_class; _window := Some (WindowHandle 1);
           _renderer := RendererFor (Some (WindowHandle 1)) |}
        third_call_fails_env 0 =
    (Raised AttributeError, [NewFrame; Invoke m_draw; UserCode m_draw]).
Proof.
  apply (exception_in_draw_aborts_the_frame
           {| class_of := icon_class; _window := Some (WindowHandle 1);
              _renderer := RendererFor (Some (WindowHandle 1)) |}
           third_call_fails_env 0 AttributeError);
    reflexivity.
Defined.

Lemma every_settings_path cls fuel env n :
  Forall (uses_the_settings_path cls) (snd (Window__init__ cls fuel env n)).
Proof.
  apply (sound_events _ true). unfold Window__init__.
  trace_all ltac:(exact I || reflexivity).
  apply sound_while; [intros; exact I |].
  intros. trace_all ltac:(exact I || reflexivity).
Qed.

(** X5.  The settings file is one and the same throughout: in every run
    of a construction, the path printed, the path given to imgui as its
    settings file name, the path the settings are loaded from and the path
    they are saved to are all [_imgui_ini_path], and the directory created is
    [_IMGUI_INI_DIR].  In a construction that returns, of a class with
    [_IMGUI_USE_INI] set and [_pre_exit_loop] not overridden, the directory
    is created before the settings are loaded, and they are loaded before
    they are saved. *)
Theorem settings_are_loaded_from_where_they_are_saved :
  forall cls fuel env n,
    Forall (uses_the_settings_path cls)
           (trace_of (Window__init__ cls fuel env n))
    /\
    (_IMGUI_USE_INI cls = true -> overrides cls m_pre_exit_loop = false ->
     forall self,
       outcome_of (Window__init__ cls fuel env n) = Returned self ->
       exists t1 t2 t3 t4,
         trace_of (Window__init__ cls fuel env n) =
           t1 ++ Makedirs (_IMGUI_INI_DIR cls)
           :: t2 ++ LoadIniSettingsFromDisk (_imgui_ini_path cls)
           :: t3 ++ SaveIniSettingsToDisk (_imgui_ini_path cls) :: t4).
Proof.
  intros cls fuel env n. split.
  - apply every_settings_path.
  - intros Huse Hdef self Hret. unfold outcome_of, trace_of in *.
    destruct (Window__init__ cls fuel env n) as [r t] eqn:Hrun.
    simpl in Hret. subst r.
    apply init_returned in Hrun.
    destruct Hrun as (w & its & _ & _ & _ & _ & _ & _ & ->).
    unfold imgui_setup_events. rewrite Huse.
    replace (hook_events cls m_pre_exit_loop)
      with [Invoke m_pre_exit_loop; SaveIniSettingsToDisk (_imgui_ini_path cls)]
      by (unfold hook_events; now rewrite Hdef).
    exists (hook_events cls m_pre_init ++ window_creation_events cls env
            ++ [ImguiCreateContext]),
      [Print (PrintIniPath (_imgui_ini_path cls));
       SetIniFileName (Some (_imgui_ini_path cls))],
      ([NewGlfwRenderer (created_window env);
        GlClearColor (_GL_CLEAR_COLOUR cls);
        SetWindowRefreshCallback (Some w)]
       ++ hook_events cls m_post_init ++ List.concat its
       ++ [WindowShouldClose true; Invoke m_pre_exit_loop]),
      [RendererShutdown; GlfwTerminate].
    cbn [app]. rewrite <- !app_assoc. cbn [app].
    repeat (f_equal; try reflexivity); rewrite <- ?app_assoc; reflexivity.
Qed.

Lemma settings_of_the_plain_class :
  exists t1 t2 t3 t4,
    trace_of (Window__init__ plain_class 1 (windows_env 0) 0) =
      t1 ++ Makedirs ["/tmp"; "amgui"]
      :: t2 ++ LoadIniSettingsFromDisk ["/tmp"; "amgui"; "default.ini"]
      :: t3 ++ SaveIniSettingsToDisk ["/tmp"; "amgui"; "default.ini"] :: t4.
Proof.
  eapply (proj2 (settings_are_loaded_from_where_they_are_saved
                   plain_class 1 (windows_env 0) 0) eq_refl eq_refl).
  vm_compute. reflexivity.
Defined.

Lemma call_trace ev env n : snd (call ev env n) = [ev].
Proof. unfold call. now destruct (fault env n). Qed.

Lemma not_teardown_not_in t :
  Forall (fun ev => is_teardown ev = false) t ->
  ~ In RendererShutdown t /\ ~ In GlfwTerminate t.
Proof.
  rewrite Forall_forall. intros H.
  split; intros Hin; apply H in Hin; discriminate.
Qed.

Lemma glfw_loop_raised self fuel env n e t :
  _glfw_loop self fuel env n = (Raised e, t) ->
  (~ In RendererShutdown t /\ ~ In GlfwTerminate t)
  \/ (exists t', t = t' ++ [RendererShutdown] /\ ~ In GlfwTerminate t')
  \/ (exists t', t = t' ++ [RendererShutdown; GlfwTerminate]).
Proof.
  unfold _glfw_loop. intros H.
  assert (Hw : sound (fun ev => is_teardown ev = false) false
                 (while_not_should_close self fuel env n)).
  { apply sound_while; [reflexivity |]. intros. trace_all ltac:(reflexivity). }
  destruct Hw as [Hw _].
  apply bind_inv in H.
  destruct H as [([] & tw & t1 & Hrun & H & ->) | (r' & Hrun & _ & _)].
  - rewrite Hrun in Hw. cbn [snd] in Hw.
    match type of H with
    | bind _ _ _ ?k = _ =>
        assert (Hh : sound (fun ev => is_teardown ev = false) false
                       (_pre_exit_loop (class_of self) env k))
          by trace_all ltac:(reflexivity)
    end.
    destruct Hh as [Hh _].
    apply bind_inv in H.
    destruct H as [([] & th & t2 & Hhook & H & ->) | (r' & Hhook & _ & _)].
    + rewrite Hhook in Hh. cbn [snd] in Hh.
      assert (Hpre : Forall (fun ev => is_teardown ev = false) (tw ++ th))
        by (apply Forall_app; auto).
      apply not_teardown_not_in in Hpre. destruct Hpre as [_ Hpre].
      apply bind_inv in H.
      destruct H as [([] & ts & t3 & Hs & H & ->) | (r' & Hs & _ & _)].
      * apply call_returned_inv in Hs. destruct Hs as [-> _].
        pose proof (call_trace GlfwTerminate env
                      (n + List.length tw + List.length th
                       + List.length [RendererShutdown])) as Ht.
        rewrite H in Ht. cbn [snd] in Ht. subst t3.
        right. right. exists (tw ++ th). now rewrite <- !app_assoc.
      * pose proof (call_trace RendererShutdown env
                      (n + List.length tw + List.length th)) as Ht.
        rewrite Hs in Ht. cbn [snd] in Ht. subst t2.
        right. left. exists (tw ++ th). split; [now rewrite app_assoc | exact Hpre].
    + rewrite Hhook in Hh. cbn [snd] in Hh.
      left. apply not_teardown_not_in. apply Forall_app. auto.
  - rewrite Hrun in Hw. cbn [snd] in Hw.
    left. now apply not_teardown_not_in.
Qed.

(** X6.  [_glfw_loop] has no clean-up for exceptions: when it ends with
    an exception, then either neither [renderer.shutdown] nor
    [glfw.terminate] has been called (a call of the loop or of
    [_pre_exit_loop] raised), or [renderer.shutdown] itself raised and
    [glfw.terminate] has not been called, or [glfw.terminate], the last
    call, raised. *)
Theorem glfw_loop_skips_teardown_on_exceptions :
  forall self fuel env n e t,
    _glfw_loop self fuel env n = (Raised e, t) ->
    (~ In RendererShutdown t /\ ~ In GlfwTerminate t)
    \/ (exists t', t = t' ++ [RendererShutdown] /\ ~ In GlfwTerminate t')
    \/ (exists t', t = t' ++ [RendererShutdown; GlfwTerminate]).
Proof. intros self fuel env n e t. apply glfw_loop_raised. Qed.

Lemma teardown_skipped_when_saving_fails :
  (~ In RendererShutdown
        [WindowShouldClose true; Invoke m_pre_exit_loop;
         SaveIniSettingsToDisk ["/tmp"; "amgui"; "default.ini"]] /\
   ~ In GlfwTerminate
        [WindowShouldClose true; Invoke m_pre_exit_loop;
         SaveIniSettingsToDisk ["/tmp"; "amgui"; "default.ini"]])
  \/ (exists t',
        [WindowShouldClose true; Invoke m_pre_exit_loop;
         SaveIniSettingsToDisk ["/tmp"; "amgui"; "default.ini"]] =
          t' ++ [RendererShutdown] /\ ~ In GlfwTerminate t')
  \/ (exists t',
        [WindowShouldClose true; Invoke m_pre_exit_loop;
         SaveIniSettingsToDisk ["/tmp"; "amgui"; "default.ini"]] =
          t' ++ [RendererShutdown; GlfwTerminate]).
Proof.
  apply (glfw_loop_skips_teardown_on_exceptions
           {| class_of := plain_class; _window := Some (WindowHandle 1);
              _renderer := RendererFor (Some (WindowHandle 1)) |}
           1 third_call_fails_env 0 AttributeError).
  vm_compute. reflexivity.
Defined.

Lemma Icon_init_loop_returned paths :
  forall images env n imgs t,
    Icon_init_loop images paths env n = (Returned imgs, t) ->
    imgs = images ++ opened n paths /\ t = map ImageOpen paths.
Proof.
  induction paths as [| p rest IH]; intros images env n imgs t H;
    cbn [Icon_init_loop] in H.
  - injection H as <- <-. now rewrite app_nil_r.
  - apply bind_returned_inv in H. destruct H as (img & t1 & t2 & H1 & H2 & ->).
    apply call_ret_returned_inv in H1. destruct H1 as (-> & -> & _).
    apply IH in H2. destruct H2 as [-> ->].
    cbn [List.length opened map app]. rewrite Nat.add_1_r.
    now rewrite <- app_assoc.
Qed.

Lemma Icon_returned paths env n icon t :
  Icon__init__ paths env n = (Returned icon, t) ->
  glfw_images icon = opened n paths /\ t = map ImageOpen paths.
Proof.
  unfold Icon__init__. intros H.
  apply bind_returned_inv in H. destruct H as (imgs & t1 & t2 & H1 & H2 & ->).
  injection H2 as <- <-.
  apply Icon_init_loop_returned in H1. destruct H1 as [-> ->].
  now rewrite app_nil_r.
Qed.

(** X7.  The icon given to GLFW is the one [Icon] built: for a class
    whose [_WINDOW_ICON] is an [Icon] constructed from a list of paths,
    [_init_glfw], when [glfw.init] succeeds, [ctypes.windll] exists and no
    call raises, calls [glfw.set_window_icon] on the new window with a count
    equal to the number of paths and with the images opened from these paths,
    in their order. *)
Theorem window_icon_is_the_icon_built_from_the_paths :
  forall (ordered_icon_paths : list string) env0 n0 icon t0 cls env n,
    Icon__init__ ordered_icon_paths env0 n0 = (Returned icon, t0) ->
    _WINDOW_ICON cls = Some icon ->
    faultless env -> glfw_init_ok env = true -> windll env = true ->
    exists images,
      In (SetWindowIcon (created_window env)
                        (List.length ordered_icon_paths) images)
         (trace_of (_init_glfw cls env n)) /\
      map image_path images = ordered_icon_paths.
Proof.
  intros paths env0 n0 icon t0 cls env n Hicon Hcls Hq Hok Hw.
  apply Icon_returned in Hicon. destruct Hicon as [Himgs _].
  exists (glfw_images icon). split.
  - destruct (init_glfw_to_window cls env n Hq Hok Hw) as [k ->].
    unfold trace_of, after. cbn [snd]. apply in_or_app. left.
    unfold window_creation_events. rewrite Hcls.
    apply in_or_app. right.
    replace (List.length paths) with (List.length (glfw_images icon)).
    + now left.
    + rewrite Himgs. rewrite <- (opened_paths n0 paths) at 2.
      now rewrite length_map.
  - rewrite Himgs. apply opened_paths.
Qed.

Lemma window_icon_of_two_files :
  exists images,
    In (SetWindowIcon (Some (WindowHandle 1)) 2 images)
       (trace_of (_init_glfw
                    icon_class (windows_env 0) 5)) /\
    map image_path images = ["icon16.png"; "icon32.png"].
Proof.
  apply (window_icon_is_the_icon_built_from_the_paths
           ["icon16.png"; "icon32.png"] (windows_env 0) 0
           {| _images := opened 0 ["icon16.png"; "icon32.png"] |}
           [ImageOpen "icon16.png"; ImageOpen "icon32.png"]
           icon_class (windows_env 0) 5).
  - reflexivity.
  - reflexivity.
  - apply windows_env_faultless.
  - reflexivity.
  - reflexivity.
Defined.

(** X8.  A construction that exits has done nothing but call
    [_pre_init] and the part of [_init_glfw] up to the failure: its exit
    code is 1 and its trace is the [_pre_init] hook followed either by
    [glfw.init] and the log record, or by the window creation calls,
    [glfw.terminate] and the log record.  So the imgui context is never
    created, no directory or settings file is written, and none of
    [_post_init], [draw] and [_pre_exit_loop] is called. *)
Theorem construction_that_exits_has_only_begun :
  forall cls fuel env n c t,
    Window__init__ cls fuel env n = (Exited c, t) ->
    c = 1%Z /\
    (t = hook_events cls m_pre_init
         ++ [GlfwInit false;
             LoggerCritical "Could not initialize OpenGL context"]
     \/
     t = hook_events cls m_pre_init
         ++ window_creation_events cls env
         ++ [GlfwTerminate; LoggerCritical "Could not initialize Window"])
    /\ ~ In ImguiCreateContext t
    /\ (forall a, In (Makedirs a) t \/ In (SaveIniSettingsToDisk a) t -> False)
    /\ invocations m_post_init t = 0
    /\ invocations m_draw t = 0
    /\ invocations m_pre_exit_loop t = 0.
Proof.
  intros cls fuel env n c t H.
  assert (Hshape :
    c = 1%Z /\
    (t = hook_events cls m_pre_init
         ++ [GlfwInit false;
             LoggerCritical "Could not initialize OpenGL context"]
     \/
     t = hook_events cls m_pre_init
         ++ window_creation_events cls env
         ++ [GlfwTerminate; LoggerCritical "Could not initialize Window"])).
  { pose proof (init_exit_inv cls fuel env n c t H) as (t0 & t1 & -> & Hinit).
    unfold Window__init__, _pre_init in H.
    apply bind_inv in H.
    destruct H as [([] & tp & t2 & Hp & H & Heq) | (r' & Hp & Hr & Hc)].
    - apply invoke_returned in Hp. subst tp.
      apply bind_inv in H.
      destruct H as [(wr & ti & t3 & Hi & H & ->) | (r' & Hi & Hr & Hc)].
      + exfalso.
        match type of H with
        | ?run = _ =>
            assert (Hs : sound (fun _ => True) false run)
        end.
        { cbv zeta. trace_all ltac:(exact I).
          apply sound_while; [exact (fun _ => I) |].
          intros. trace_all ltac:(exact I). }
        rewrite H in Hs. destruct Hs as [_ Hs]. now specialize (Hs eq_refl).
      + destruct r'; try discriminate. injection Hc as <-.
        apply init_glfw_exit_inv in Hi.
        destruct Hi as [-> [[_ ->] | (_ & _ & _ & ->)]]; rewrite Heq; auto.
    - exfalso.
      assert (Hs : sound (fun _ => True) false (invoke cls m_pre_init env n))
        by trace_all ltac:(exact I).
      rewrite Hp in Hs. destruct r'; try discriminate.
      destruct Hs as [_ Hs]. now specialize (Hs eq_refl). }
  destruct Hshape as [Hc Ht]. split; [exact Hc |]. split; [exact Ht |].
  assert (Hev : Forall (fun ev => stage_of ev <> Some GuiContext /\
                                  (writes ev = None \/ writes ev = Some LogStream))
                       t).
  { destruct Ht as [-> | ->];
      unfold hook_events, window_creation_events;
      destruct (overrides cls m_pre_init), (_WINDOW_ICON cls); cbn [app];
      repeat (constructor; [split; [discriminate | simpl; auto] |]);
      constructor. }
  rewrite Forall_forall in Hev.
  repeat split.
  - intros Hin. apply Hev in Hin. destruct Hin as [Hin _]. now apply Hin.
  - intros a [Hin | Hin]; apply Hev in Hin;
      destruct Hin as [_ [Hin | Hin]]; discriminate Hin.
  - destruct Ht as [-> | ->];
      rewrite !invocations_app, ?invocations_hook, ?invocations_window_creation;
      reflexivity.
  - destruct Ht as [-> | ->];
      rewrite !invocations_app, ?invocations_hook, ?invocations_window_creation;
      reflexivity.
  - destruct Ht as [-> | ->];
      rewrite !invocations_app, ?invocations_hook, ?invocations_window_creation;
      reflexivity.
Qed.

Lemma construction_without_a_window :
  1%Z = 1%Z /\
  (trace_of (Window__init__ plain_class 5 no_window_env 0) =
     hook_events plain_class m_pre_init
     ++ [GlfwInit false; LoggerCritical "Could not initialize OpenGL context"]
   \/
   trace_of (Window__init__ plain_class 5 no_window_env 0) =
     hook_events plain_class m_pre_init
     ++ window_creation_events plain_class no_window_env
     ++ [GlfwTerminate; LoggerCritical "Could not initialize Window"])
  /\ ~ In ImguiCreateContext
          (trace_of (Window__init__ plain_class 5 no_window_env 0))
  /\ (forall a,
         In (Makedirs a)
            (trace_of (Window__init__ plain_class 5 no_window_env 0)) \/
         In (SaveIniSettingsToDisk a)
            (trace_of (Window__init__ plain_class 5 no_window_env 0)) -> False)
  /\ invocations m_post_init
       (trace_of (Window__init__ plain_class 5 no_window_env 0)) = 0
  /\ invocations m_draw
       (trace_of (Window__init__ plain_class 5 no_window_env 0)) = 0
  /\ invocations m_pre_exit_loop
       (trace_of (Window__init__ plain_class 5 no_window_env 0)) = 0.
Proof.
  apply (construction_that_exits_has_only_begun plain_class 5 no_window_env 0).
  vm_compute. reflexivity.
Defined.

Lemma count_app p t1 t2 : count p (t1 ++ t2) = count p t1 + count p t2.
Proof. unfold count. now rewrite filter_app, length_app. Qed.

Lemma tally_frame cls rendered :
  tally_of (frame_events cls rendered) =
    {| frames_begun := 1; draws := 1; frames_shown := 1; polled := 0 |}.
Proof.
  unfold tally_of, frame_events, hook_events, invocations, count.
  destruct (overrides cls m_draw), rendered; reflexivity.
Qed.

Lemma tally_app t1 t2 :
  tally_of (t1 ++ t2) =
    {| frames_begun := frames_begun (tally_of t1) + frames_begun (tally_of t2);
       draws := draws (tally_of t1) + draws (tally_of t2);
       frames_shown := frames_shown (tally_of t1) + frames_shown (tally_of t2);
       polled := polled (tally_of t1) + polled (tally_of t2) |}.
Proof.
  unfold tally_of. cbn [frames_begun draws frames_shown polled].
  now rewrite !count_app, invocations_app.
Qed.

Lemma tally_frames cls frames :
  Forall (is_frame cls) frames ->
  tally_of (List.concat frames) =
    {| frames_begun := List.length frames; draws := List.length frames;
       frames_shown := List.length frames; polled := 0 |}.
Proof.
  induction 1 as [| f frames [rendered ->] _ IH]; [reflexivity |].
  cbn [List.concat List.length]. now rewrite tally_app, tally_frame, IH.
Qed.

Lemma tally_iteration cls it :
  is_iteration cls it ->
  exists callbacks,
    tally_of it =
      {| frames_begun := S callbacks; draws := S callbacks;
         frames_shown := S callbacks; polled := 1 |}.
Proof.
  intros (cb & want & l & Hcb & [r ->] & ->). exists (List.length cb).
  rewrite !tally_app, (tally_frames cls cb Hcb), tally_frame.
  destruct want; cbn; f_equal; lia.
Qed.

Lemma tally_iterations cls iterations :
  Forall (is_iteration cls) iterations ->
  exists frames,
    List.length iterations <= frames /\
    tally_of (List.concat iterations) =
      {| frames_begun := frames; draws := frames; frames_shown := frames;
         polled := List.length iterations |}.
Proof.
  induction 1 as [| it its Hit _ (frames & Hle & IH)].
  - exists 0. auto.
  - destruct (tally_iteration cls it Hit) as [cb Hcb].
    exists (S cb + frames). split; [simpl; lia |].
    cbn [List.concat List.length]. rewrite tally_app, Hcb, IH. cbn. f_equal.
Qed.

(** X9.  In a loop that returns every frame that was begun has been
    drawn and shown: the numbers of [imgui.new_frame] calls, of calls of the
    subclass's [draw] and of [glfw.swap_buffers] calls are equal, and there
    are at least as many frames as polls of events, one poll being made in
    each iteration. *)
Theorem frames_of_a_finished_loop_are_complete :
  forall self fuel env n t,
    while_not_should_close self fuel env n = (Returned tt, t) ->
    exists frames iterations,
      iterations <= frames /\ iterations < fuel /\
      tally_of t =
        {| frames_begun := frames; draws := frames; frames_shown := frames;
           polled := iterations |}.
Proof.
  intros self fuel env n t H. apply while_returned in H.
  destruct H as (its & Hits & Hlen & ->).
  destruct (tally_iterations _ its Hits) as (frames & Hle & Ht).
  exists frames, (List.length its). split; [exact Hle | split; [exact Hlen |]].
  rewrite tally_app, Ht. cbn. f_equal; lia.
Qed.

Lemma frames_of_a_short_session :
  exists frames iterations,
    iterations <= frames /\ iterations < 3 /\
    tally_of (trace_of
                (while_not_should_close
                   {| class_of := plain_class; _window := Some (WindowHandle 1);
                      _renderer := RendererFor (Some (WindowHandle 1)) |}
                   3 (windows_env 20) 0)) =
      {| frames_begun := frames; draws := frames; frames_shown := frames;
         polled := iterations |}.
Proof.
  eapply (frames_of_a_finished_loop_are_complete
            {| class_of := plain_class; _window := Some (WindowHandle 1);
               _renderer := RendererFor (Some (WindowHandle 1)) |}
            3 (windows_env 20) 0).
  vm_compute. reflexivity.
Defined.

Lemma bind_blocked_left {A B} (m : M A) (f : A -> M B) env n :
  returned (fst (m env n)) = false ->
  returned (fst (bind m f env n)) = false.
Proof.
  unfold bind. destruct (m env n) as [[a | e | c | ] t]; simpl; auto.
  discriminate.
Qed.

Lemma bind_blocked_right {A B} (m : M A) (f : A -> M B) env n :
  (forall a k, returned (fst (f a env k)) = false) ->
  returned (fst (bind m f env n)) = false.
Proof.
  intros Hf. unfold bind. destruct (m env n) as [[a | e | c | ] t]; simpl; auto.
  specialize (Hf a (n + List.length t)).
  now destruct (f a env (n + List.length t)).
Qed.

Lemma while_blocks self env :
  (forall k, should_close_at env k = false) ->
  forall fuel n,
    returned (fst (while_not_should_close self fuel env n)) = false.
Proof.
  intros Hopen. induction fuel as [| fuel IH]; intros n; [reflexivity |].
  cbn [while_not_should_close].
  unfold bind at 1, glfw_window_should_close, call_ret. cbv beta.
  rewrite Hopen.
  destruct (fault env n); [reflexivity |].
  match goal with
  | |- returned (fst (let (r, t') := ?run in _)) = false =>
      assert (H : returned (fst run) = false)
        by (apply bind_blocked_right; intros; apply IH);
      destruct run as [r t']; exact H
  end.
Qed.

Lemma invoke_quiet cls m env n :
  faultless env -> invoke cls m env n = (Returned tt, hook_events cls m).
Proof.
  intros Hq. unfold invoke, hook_events, default_body.
  rewrite bind_enter.
  destruct (overrides cls m), m;
    rewrite ?call_quiet by apply Hq; reflexivity.
Qed.

(** X10.  Constructing a window blocks until the window should close:
    while [glfw.window_should_close] keeps answering false the constructor
    does not return, whatever else happens; and on a machine where
    [glfw.init] succeeds, [ctypes.windll] exists, a window is created and no
    call raises, it does return once the flag is set, the window and the
    renderer of the object being the ones [_init_glfw] made. *)
Theorem constructor_returns_when_the_window_is_closed :
  forall cls env n,
    ((forall k, should_close_at env k = false) ->
     forall fuel,
       returned (outcome_of (Window__init__ cls fuel env n)) = false)
    /\
    (forall w K,
        faultless env -> glfw_init_ok env = true -> windll env = true ->
        created_window env = Some w ->
        (forall k, K <= k -> should_close_at env k = true) ->
        exists t,
          Window__init__ cls (S K) env n =
            (Returned {| class_of := cls; _window := Some w;
                         _renderer := RendererFor (Some w) |}, t)).
Proof.
  intros cls env n. split.
  - intros Hopen fuel. unfold outcome_of, Window__init__.
    apply bind_blocked_right. intros [] k.
    apply bind_blocked_right. intros wr k1. cbv zeta.
    apply bind_blocked_right. intros [] k2.
    apply bind_blocked_right. intros [] k3.
    apply bind_blocked_left. unfold _glfw_loop.
    apply bind_blocked_left. now apply while_blocks.
  - intros w K Hq Hok Hw Hwin Hset.
    unfold Window__init__, _pre_init, _post_init.
    erewrite bind_after by (apply invoke_quiet; exact Hq).
    erewrite bind_after by (apply init_glfw_succeeds; eassumption).
    cbv zeta. cbn [fst snd window _window].
    rewrite bind_call_quiet by apply Hq.
    erewrite bind_after by (apply invoke_quiet; exact Hq).
    unfold _glfw_loop, _pre_exit_loop. rewrite !bind_assoc.
    match goal with
    | |- context [bind (while_not_should_close ?self (S K)) _ env ?k] =>
        destruct (while_returns self env K Hq Hset (S K) k) as [tw Htw];
          [lia |]
    end.
    erewrite bind_after by exact Htw.
    cbv beta. rewrite !bind_assoc.
    erewrite bind_after by (apply invoke_quiet; exact Hq).
    run_quiet Hq. eexists. unfold after, ret. cbn [fst snd]. reflexivity.
Qed.

Lemma constructor_on_a_window_closed_at_30 :
  exists t,
    Window__init__ plain_class 31 (windows_env 30) 0 =
      (Returned {| class_of := plain_class; _window := Some (WindowHandle 1);
                   _renderer := RendererFor (Some (WindowHandle 1)) |}, t).
Proof.
  apply (proj2 (constructor_returns_when_the_window_is_closed
                  plain_class (windows_env 30) 0)
           (WindowHandle 1) 30).
  - apply windows_env_faultless.
  - reflexivity.
  - reflexivity.
  - reflexivity.
  - intros k Hk. apply Nat.leb_le. exact Hk.
Defined.
